(** * Excel-data-dashboard: column classification, filter evaluation, file parsing

    A shallow embedding of
    - [FilterPanel] (the column classifier, the filter evaluator and the two
      constraint-update handlers), and
    - [parseFile] / [parseCSV] / [parseExcel] of [services/dataService.ts],
    followed by the properties the specification states about them.

    Conventions.
    - A JavaScript object used as a record of columns ([DataRow]) is an
      association list in the order in which the engine enumerates the own
      properties, so that [Object.keys] is the list of first components; a
      missing key reads as [None] ([undefined]).
    - The object used as a dictionary of active filters
      ([Record<string, FilterValue>]) is a [gmap string FilterValue].
    - Built-ins whose behaviour is fixed by the JavaScript engine and not by
      this repository ([Date.parse], [Number], [String] on numbers,
      [localeCompare], numeric subtraction) are the fields of the class
      [Engine]; [Array.prototype.sort] is the field of the class [ArraySort],
      and what ECMAScript fixes of its result is the class [ArraySortLaws];
      the third-party decoders (Papa Parse, SheetJS) are the fields of the
      class [Decoders].  [Reference.engine] and [Reference.sorting] are one
      concrete engine, used to run the definitions on examples. *)

From Stdlib Require Import Ascii String.
From stdpp Require Import base strings list gmap sorting pretty.


(** ** The JavaScript engine the code runs on *)

Class Engine := {
  (** the type of JavaScript numbers, up to SameValueZero (the equality used
      by [Set]) *)
  number : Type;
  number_eq_dec :: EqDecision number;
  (** the sign of [a - b] as [Array.prototype.sort] reads it: negative is
      [Lt], positive is [Gt], zero and NaN are [Eq] *)
  Number_sub_sign : number → number → comparison;
  (** [String(n)] for a number [n] *)
  Number_toString : number → string;
  (** [isNaN(Number(s))] for a string [s] *)
  Number_isNaN : string → bool;
  (** [Date.parse(s)]: a time value in milliseconds, [None] for NaN;
      [new Date(s).getTime()] is the same function of [s] *)
  Date_parse : string → option Z;
  (** the sign of [a.localeCompare(b)] *)
  localeCompare : string → string → comparison;
}.

(** ** Data model ([types.ts]) *)

(** [string | number | boolean | null] *)
Inductive value `{Engine} : Type :=
  | VString (s : string)
  | VNumber (n : number)
  | VBoolean (b : bool)
  | VNull.

Global Instance value_eq_dec `{Engine} : EqDecision value.
Proof. solve_decision. Defined.

(** [DataRow = Record<string, string | number | boolean | null>]: the own
    properties of the object, in the order in which the engine enumerates
    them.  That is the order in which they were created, except that names
    that read as array indices ([2019], [2020]) come first, in ascending
    order. *)
Definition DataRow `{Engine} : Type := list (string * value).

(** [row[key]]; [None] is [undefined] *)
Fixpoint row_get `{Engine} (row : DataRow) (key : string) : option value :=
  match row with
  | [] => None
  | (k, v) :: rest => if decide (k = key) then Some v else row_get rest key
  end.

(** [Object.keys(row)]: the names in the order of enumeration *)
Definition Object_keys `{Engine} (row : DataRow) : list string := row.*1.

(** [String(v)] *)
Definition String_of `{Engine} (v : value) : string :=
  match v with
  | VString s => s
  | VNumber n => Number_toString n
  | VBoolean true => "true"
  | VBoolean false => "false"
  | VNull => "null"
  end.

(** [type FilterValue = string | { start: string; end: string }] *)
Inductive FilterValue : Type :=
  | FCategory (selected : string)
  | FDateRange (start end_ : string).

Global Instance FilterValue_eq_dec : EqDecision FilterValue.
Proof. solve_decision. Defined.

(** [interface ColumnMeta]; the fields [min] and [max] are never set. *)
Inductive ColumnType := categorical | date.

Global Instance ColumnType_eq_dec : EqDecision ColumnType.
Proof. solve_decision. Defined.

Record ColumnMeta := {
  name : string;
  type : ColumnType;
  options : option (list string);
}.

Global Instance ColumnMeta_eq_dec : EqDecision ColumnMeta.
Proof. solve_decision. Defined.

(** ** Filter evaluator (second effect of [FilterPanel]) *)

(** The numbers the date comparison works on: a time value, NaN, or one of
    the two infinities used for a missing bound. *)
Inductive timeval := TNaN | TNegInf | TFinite (t : Z) | TPosInf.

Definition getTime (parsed : option Z) : timeval :=
  match parsed with Some t => TFinite t | None => TNaN end.

(** [isNaN(x)] *)
Definition isNaN (x : timeval) : bool :=
  match x with TNaN => true | _ => false end.

(** [x <= y] on numbers: false as soon as one side is NaN *)
Definition num_le (x y : timeval) : bool :=
  match x, y with
  | TNaN, _ | _, TNaN => false
  | TNegInf, _ => true
  | _, TPosInf => true
  | TFinite a, TFinite b => bool_decide (a ≤ b)%Z
  | _, _ => false
  end.

(** [x >= y] *)
Definition num_ge (x y : timeval) : bool := num_le y x.

(** truthiness of a string: only the empty string is falsy *)
Definition truthy (s : string) : bool := negb (bool_decide (s = EmptyString)).

(** The callback given to [every]: one active constraint against one row. *)
Definition entry_passes `{Engine} (row : DataRow) (entry : string * FilterValue) : bool :=
  let '(key, filterValue) := entry in
  match row_get row key with
  | None | Some VNull => false
  | Some rowValue =>
      match filterValue with
      | FCategory selected => bool_decide (String_of rowValue = selected)
      | FDateRange start end_ =>
          let rowDate := getTime (Date_parse (String_of rowValue)) in
          let start_t := if truthy start then getTime (Date_parse start) else TNegInf in
          let end_t := if truthy end_ then getTime (Date_parse end_) else TPosInf in
          if isNaN rowDate then false
          else num_ge rowDate start_t && num_le rowDate end_t
      end
  end.

(** [Object.keys(activeFilters)] *)
Definition filter_keys (activeFilters : gmap string FilterValue) : list string :=
  (map_to_list activeFilters).*1.

(** [Object.entries(activeFilters).every(...)] *)
Definition row_passes `{Engine} (activeFilters : gmap string FilterValue) (row : DataRow) : bool :=
  forallb (entry_passes row) (map_to_list activeFilters).

(** The array handed to [onFilterChange], as a sequence of rows. *)
Definition evaluate `{Engine} (data : list DataRow) (activeFilters : gmap string FilterValue)
    : list DataRow :=
  if decide (length (filter_keys activeFilters) = 0) then data
  else filter (λ row, row_passes activeFilters row) data.

(** Arrays are heap objects and [onFilterChange] receives a reference.  The
    heap is the list of allocated arrays, an address is an index into it, and
    [Array.prototype.filter] allocates its result. *)
Definition ref := nat.
Definition heap `{Engine} : Type := list (list DataRow).

Definition Array_filter `{Engine} (p : DataRow → bool) (h : heap) (a : ref) : option (heap * ref) :=
  rows ← h !! a; Some (h ++ [filter (λ row, p row) rows], length h).

(** The effect body: the heap after it ran and the reference it passed to
    [onFilterChange]. *)
Definition applyFilters `{Engine} (h : heap) (data : ref) (activeFilters : gmap string FilterValue)
    : option (heap * ref) :=
  if decide (length (filter_keys activeFilters) = 0) then Some (h, data)
  else Array_filter (row_passes activeFilters) h data.

(** ** Constraint updates *)

(** [handleCategoryChange(column, value)], as the function given to
    [setActiveFilters] *)
Definition handleCategoryChange (column value : string) (prev : gmap string FilterValue)
    : gmap string FilterValue :=
  if decide (value = EmptyString) then delete column prev else <[column := FCategory value]> prev.

Inductive DateField := field_start | field_end.

(** [handleDateChange(column, field, value)].  [current] is the stored range,
    or both bounds empty when the column has no entry.  When the entry is a
    category string the spread copies only its indexed characters, so [start]
    and [end] are [undefined], which every reader of a bound treats like the
    empty string. *)
Definition handleDateChange (column : string) (field : DateField) (value : string)
    (prev : gmap string FilterValue) : gmap string FilterValue :=
  let '(cur_start, cur_end) :=
    match prev !! column with
    | Some (FDateRange s e) => (s, e)
    | _ => (EmptyString, EmptyString)
    end in
  let '(new_start, new_end) :=
    match field with
    | field_start => (value, cur_end)
    | field_end => (cur_start, value)
    end in
  if negb (truthy new_start) && negb (truthy new_end) then delete column prev
  else <[column := FDateRange new_start new_end]> prev.

(** ** Column classifier (first effect of [FilterPanel]) *)

Definition ROW_LIMIT : nat := 200.

(** [v !== null && v !== undefined], on the result of [row[header]] *)
Definition present `{Engine} (cell : option value) : option value :=
  match cell with
  | None | Some VNull => None
  | Some v => Some v
  end.

(** [sampleData.map(row => row[header]).filter(v => v !== null && v !== undefined)] *)
Definition column_values `{Engine} (sampleData : list DataRow) (header : string) : list value :=
  omap (λ row, present (row_get row header)) sampleData.

(** [Set.prototype.add] on the insertion-ordered list of members *)
Definition Set_add `{Engine} (members : list value) (v : value) : list value :=
  if decide (v ∈ members) then members else members ++ [v].

(** [Array.from(new Set(values))]: the distinct values, each at the place of
    its first occurrence *)
Definition Array_from_Set `{Engine} (values : list value) : list value :=
  foldl Set_add [] values.

(** The comparator given to [sort]. *)
Definition compare_options `{Engine} (a b : value) : comparison :=
  match a, b with
  | VNumber x, VNumber y => Number_sub_sign x y
  | _, _ => localeCompare (String_of a) (String_of b)
  end.

(** [a] may stand before [b] in an array sorted with [cmp]. *)
Definition not_after {A} (cmp : A → A → comparison) (a b : A) : Prop := cmp a b ≠ Gt.

(** The comparator is a strict total order on the members of [l]: swapping
    the arguments swaps the sign, it is transitive, and only equal members
    compare equal. *)
Definition strict_total_order_on {A} (cmp : A → A → comparison) (l : list A) : Prop :=
  Forall (λ a, Forall (λ b,
    cmp b a = CompOpp (cmp a b)
    ∧ (cmp a b = Eq → a = b)
    ∧ Forall (λ c, cmp a b = Lt → cmp b c = Lt → cmp a c = Lt) l) l) l.

Global Instance strict_total_order_on_dec {A} `{EqDecision A} (cmp : A → A → comparison) l :
  Decision (strict_total_order_on cmp l).
Proof. unfold strict_total_order_on. apply _. Defined.

(** [Array.prototype.sort(cmp)], on an array without holes and with a
    comparator that returns.  The algorithm is the engine's own. *)
Class ArraySort := {
  Array_sort : ∀ {A : Type}, (A → A → comparison) → list A → list A;
}.

(** What ECMAScript fixes of the result: it is an ordering of the elements
    of the array, and it is ascending when the comparator is consistent on
    them, which a strict total order is.  With any other comparator the
    order is left to the engine. *)
Class ArraySortLaws `{ArraySort} : Prop := {
  Array_sort_rearranges {A} (cmp : A → A → comparison) (l : list A) :
    Array_sort cmp l ≡ₚ l;
  Array_sort_ascending {A} (cmp : A → A → comparison) (l : list A) :
    strict_total_order_on cmp l → StronglySorted (not_after cmp) (Array_sort cmp l);
}.

(** The date heuristic on [firstVal]. *)
Definition isDate_of `{Engine} (firstVal : value) : bool :=
  match firstVal with
  | VString s =>
      if bool_decide (5 < String.length s) then
        match Date_parse s with
        | Some _ => Number_isNaN s
        | None => false
        end
      else false
  | _ => false
  end.

(** The body of [headers.forEach]: the descriptor pushed for [header], if
    any. *)
Definition classify_column `{Engine} `{ArraySort} (sampleData : list DataRow) (header : string)
    : option ColumnMeta :=
  let values := column_values sampleData header in
  match values with
  | [] => None
  | firstVal :: _ =>
      let uniqueValues := Array_from_Set values in
      let isDate := isDate_of firstVal in
      let isCategorical := bool_decide (length uniqueValues ≤ 50) in
      if isDate then
        Some {| name := header; type := date; options := None |}
      else if isCategorical then
        let sortedOptions := String_of <$> Array_sort compare_options uniqueValues in
        Some {| name := header; type := categorical; options := Some sortedOptions |}
      else None
  end.

(** [detectedColumns] at the end of the effect; [None] when the effect
    returns at its guard ([!data || data.length === 0]) without computing
    anything. *)
Definition detectColumns `{Engine} `{ArraySort} (data : list DataRow) : option (list ColumnMeta) :=
  match data with
  | [] => None
  | row0 :: _ =>
      let headers := Object_keys row0 in
      let sampleData := take ROW_LIMIT data in
      Some (omap (classify_column sampleData) headers)
  end.




(** ** File parsing ([services/dataService.ts]) *)

Record File := {
  file_name : string;
  file_content : string;
}.

(** A thrown or rejected value. *)
Inductive Error := MkError (message : string).

Global Instance Error_eq_dec : EqDecision Error.
Proof. solve_decision. Defined.

(** [interface DataSet] *)
Record DataSet `{Engine} := {
  fileName : string;
  headers : list string;
  data : list DataRow;
  rowCount : nat;
}.

(** What Papa Parse reports: the [error] callback, or the [complete] callback
    with [results.data], [results.errors] and [results.meta.fields]. *)
Inductive PapaOutcome `{Engine} :=
  | PapaError (e : Error)
  | PapaComplete (results_data : list DataRow) (results_errors : list string)
      (meta_fields : option (list string)).

(** What reading a workbook gives: [reader.onerror], an exception inside the
    [try] block, or the rows of [XLSX.utils.sheet_to_json] for the first
    sheet. *)
Inductive ExcelOutcome `{Engine} :=
  | ReaderError (e : Error)
  | ExcelThrows (e : Error)
  | ExcelRows (jsonData : list DataRow).

Class Decoders `{Engine} := {
  Papa_parse : File → PapaOutcome;
  XLSX_read : File → ExcelOutcome;
}.

(** What a run did besides returning: which decoder it started, and the
    console warning of [parseCSV]. *)
Inductive Event := StartedPapa | StartedFileReader | Warned.

(** A settled promise with the events that led to it: [inl] is a rejection,
    [inr] a resolution. *)
Definition Promise (A : Type) : Type := list Event * (Error + A).

Definition toLowerCase_ascii (c : ascii) : ascii :=
  let n := nat_of_ascii c in
  if bool_decide (65 ≤ n ≤ 90) then ascii_of_nat (n + 32) else c.

(** [String.prototype.toLowerCase], on the letters A to Z *)
Fixpoint toLowerCase (s : string) : string :=
  match s with
  | EmptyString => EmptyString
  | String c s' => String (toLowerCase_ascii c) (toLowerCase s')
  end.

(** [s.split(sep)] for a one-character separator: never empty *)
Fixpoint split (sep : ascii) (s : string) : list string :=
  match s with
  | EmptyString => [EmptyString]
  | String c s' =>
      if decide (c = sep) then EmptyString :: split sep s'
      else match split sep s' with
           | seg :: segs => String c seg :: segs
           | [] => [String c EmptyString]
           end
  end.

(** [file.name.split('.').pop()?.toLowerCase()]; [None] is [undefined] *)
Definition extension_of (file : File) : option string :=
  toLowerCase <$> last (split "." (file_name file)).

Definition parseCSV `{Decoders} (file : File) : Promise DataSet :=
  match Papa_parse file with
  | PapaError e => ([StartedPapa], inl e)
  | PapaComplete data errors fields =>
      let warn := if bool_decide (0 < length errors) then [Warned] else [] in
      match data with
      | [] => (StartedPapa :: warn, inl (MkError "No data found in CSV file"))
      | row0 :: _ =>
          let headers := default (Object_keys row0) fields in
          (StartedPapa :: warn,
           inr {| fileName := file_name file; headers := headers;
                  data := data; rowCount := length data |})
      end
  end.

Definition parseExcel `{Decoders} (file : File) : Promise DataSet :=
  match XLSX_read file with
  | ReaderError e => ([StartedFileReader], inl e)
  | ExcelThrows e => ([StartedFileReader], inl e)
  | ExcelRows jsonData =>
      match jsonData with
      | [] => ([StartedFileReader], inl (MkError "No data found in Excel file"))
      | row0 :: _ =>
          ([StartedFileReader],
           inr {| fileName := file_name file; headers := Object_keys row0;
                  data := jsonData; rowCount := length jsonData |})
      end
  end.

Definition parseFile `{Decoders} (file : File) : Promise DataSet :=
  let extension := extension_of file in
  if decide (extension = Some "csv") then parseCSV file
  else if bool_decide (default EmptyString extension ∈ ["xls"; "xlsx"]) then parseExcel file
  else ([], inl (MkError "Unsupported file format. Please upload CSV or Excel files.")).

(** ** The specification's reading of a constraint

    Written from the specification, to be compared with [entry_passes]. *)

(** A start bound allows the time [t]: the bound is missing, or it is a date
    not after [t]. *)
Definition within_start `{Engine} (start : string) (t : Z) : Prop :=
  start = EmptyString ∨ ∃ s, Date_parse start = Some s ∧ (s ≤ t)%Z.

(** An end bound allows the time [t]: the bound is missing, or it is a date
    not before [t]. *)
Definition within_end `{Engine} (end_ : string) (t : Z) : Prop :=
  end_ = EmptyString ∨ ∃ e, Date_parse end_ = Some e ∧ (t ≤ e)%Z.

(** The row has a non-null value [v] for the column and [v] meets the
    constraint. *)
Definition satisfies `{Engine} (row : DataRow) (key : string) (fv : FilterValue) : Prop :=
  ∃ v, row_get row key = Some v ∧ v ≠ VNull ∧
    match fv with
    | FCategory selected => String_of v = selected
    | FDateRange start end_ =>
        ∃ t, Date_parse (String_of v) = Some t ∧ within_start start t ∧ within_end end_ t
    end.

Global Instance within_start_dec `{Engine} start t : Decision (within_start start t).
Proof.
  unfold within_start.
  destruct (decide (start = EmptyString)) as [Hs|Hs]; [left; by left|].
  destruct (Date_parse start) as [s|].
  - destruct (decide (s ≤ t)%Z) as [Hle|Hle].
    + left. right. by exists s.
    + right. intros [?|(s' & Hs' & ?)]; [done|]. by injection Hs' as ->.
  - right. by intros [?|(s' & Hs' & ?)].
Defined.

Global Instance within_end_dec `{Engine} end_ t : Decision (within_end end_ t).
Proof.
  unfold within_end.
  destruct (decide (end_ = EmptyString)) as [Hs|Hs]; [left; by left|].
  destruct (Date_parse end_) as [e|].
  - destruct (decide (t ≤ e)%Z) as [Hle|Hle].
    + left. right. by exists e.
    + right. intros [?|(e' & He' & ?)]; [done|]. by injection He' as ->.
  - right. by intros [?|(e' & He' & ?)].
Defined.

Global Instance satisfies_dec `{Engine} row key fv : Decision (satisfies row key fv).
Proof.
  unfold satisfies.
  destruct (row_get row key) as [v|]; [|right; by intros (? & ? & _)].
  destruct (decide (v = VNull)) as [Hv|Hv].
  { right. intros (v' & Hv' & ? & _). by injection Hv' as <-. }
  destruct fv as [selected|start end_].
  - destruct (decide (String_of v = selected)) as [Hs|Hs].
    + left. by exists v.
    + right. intros (v' & Hv' & _ & ?). by injection Hv' as <-.
  - destruct (Date_parse (String_of v)) as [t|] eqn:Hp.
    + destruct (decide (within_start start t ∧ within_end end_ t)) as [[Hlo Hhi]|Hb].
      * left. exists v. split_and!; [done..|]. by exists t.
      * right. intros (v' & Hv' & _ & t' & Ht' & ?). injection Hv' as <-.
        rewrite Hp in Ht'. by injection Ht' as <-.
    + right. intros (v' & Hv' & _ & t' & Ht' & ?). injection Hv' as <-.
      by rewrite Hp in Ht'.
Defined.

(** The bound of [column]'s stored date range that an update of [field]
    leaves alone; empty when the column has no stored range. *)
Definition other_field (field : DateField) : DateField :=
  match field with field_start => field_end | field_end => field_start end.

Definition stored_bound (M : gmap string FilterValue) (column : string) (field : DateField)
    : string :=
  match M !! column with
  | Some (FDateRange start end_) =>
      match field with field_start => start | field_end => end_ end
  | _ => EmptyString
  end.

(** ** The specification's reading of the classifier

    Written from the specification, to be compared with [classify_column]. *)

(** The first non-null value of a column among the sampled rows. *)
Fixpoint first_non_null `{Engine} (sampleData : list DataRow) (header : string)
    : option value :=
  match sampleData with
  | [] => None
  | row :: rest =>
      match row_get row header with
      | Some v => if decide (v = VNull) then first_non_null rest header else Some v
      | None => first_non_null rest header
      end
  end.

(** A string longer than 5 characters that parses as a date and does not
    read as a number. *)
Definition date_like `{Engine} (v : value) : Prop :=
  ∃ s, v = VString s ∧ 5 < String.length s
       ∧ is_Some (Date_parse s) ∧ Number_isNaN s = true.

(** The dataset has a descriptor of kind [ty] for column [header]. *)
Definition classified_as `{Engine} `{ArraySort} (data : list DataRow) (header : string) (ty : ColumnType)
    : Prop :=
  ∃ cols d, detectColumns data = Some cols ∧ d ∈ cols ∧ name d = header ∧ type d = ty.

(** The classifier emits the descriptor [d] for the dataset. *)
Definition emits `{Engine} `{ArraySort} (data : list DataRow) (d : ColumnMeta) : Prop :=
  ∃ cols, detectColumns data = Some cols ∧ d ∈ cols.

Global Instance date_like_dec `{Engine} (v : value) : Decision (date_like v).
Proof.
  destruct v as [s| | |]; [|right; by intros (? & [=] & _)..].
  destruct (decide (5 < String.length s ∧ is_Some (Date_parse s) ∧ Number_isNaN s = true))
    as [Hs|Hs].
  - left. by exists s.
  - right. by intros (s' & [= <-] & ?).
Defined.

(** The number of distinct non-null values of a column among the sampled
    rows. *)
Definition distinct_count `{Engine} (sampleData : list DataRow) (header : string) : nat :=
  length (remove_dups (column_values sampleData header)).

(** A qualifying column: it has a non-null sampled value, and the first such
    value is date-like or the distinct values are at most 50. *)
Definition qualifying `{Engine} (sampleData : list DataRow) (header : string) : Prop :=
  ∃ v, first_non_null sampleData header = Some v
       ∧ (date_like v ∨ distinct_count sampleData header ≤ 50).

Global Instance qualifying_dec `{Engine} sampleData header :
  Decision (qualifying sampleData header).
Proof.
  unfold qualifying. destruct (first_non_null sampleData header) as [v|].
  - destruct (decide (date_like v ∨ distinct_count sampleData header ≤ 50)) as [Hv|Hv].
    + left. by exists v.
    + right. by intros (v' & [= <-] & ?).
  - right. by intros (? & ? & _).
Defined.

(** ** A reference engine

    One engine to run the definitions on: numbers are the integers, strings
    are compared by code unit (which is the collation order on strings of
    digits and lower-case letters), [Number] reads decimal integers,
    [Date.parse] reads the date-only ISO form [YYYY-MM-DD] as UTC midnight
    and [sort] is an insertion sort.  The examples below stay inside these
    fragments. *)
Module Reference.

Definition digit (c : ascii) : option Z :=
  let n := Z.of_nat (nat_of_ascii c) in
  if bool_decide (48 ≤ n ≤ 57)%Z then Some (n - 48)%Z else None.

Fixpoint all_digits (s : string) : bool :=
  match s with
  | EmptyString => true
  | String c s' => bool_decide (is_Some (digit c)) && all_digits s'
  end.

(** [isNaN(Number(s))]: the empty string reads as 0, a run of digits with
    an optional sign as an integer *)
Definition decimal_isNaN (s : string) : bool :=
  match s with
  | EmptyString => false
  | String "-" (String c s') | String "+" (String c s') | String c s' =>
      negb (bool_decide (is_Some (digit c)) && all_digits s')
  end.

Definition is_leap (y : Z) : bool :=
  bool_decide (y `mod` 4 = 0)%Z
  && (negb (bool_decide (y `mod` 100 = 0)%Z) || bool_decide (y `mod` 400 = 0)%Z).

Definition days_in_month (y m : Z) : Z :=
  if bool_decide (m = 2)%Z then (if is_leap y then 29 else 28)%Z
  else if bool_decide (m ∈ [4; 6; 9; 11]%Z) then 30%Z
  else 31%Z.

(** days from 1970-01-01 to the civil date [y-m-d] *)
Definition days_from_civil (y m d : Z) : Z :=
  let y' := (if bool_decide (m ≤ 2)%Z then y - 1 else y)%Z in
  let era := (y' `div` 400)%Z in
  let yoe := (y' - era * 400)%Z in
  let mp := ((m + 9) `mod` 12)%Z in
  let doy := ((153 * mp + 2) `div` 5 + d - 1)%Z in
  let doe := (yoe * 365 + yoe `div` 4 - yoe `div` 100 + doy)%Z in
  (era * 146097 + doe - 719468)%Z.

Definition msPerDay : Z := 86400000.

Definition parse_iso_date (s : string) : option Z :=
  match s with
  | String y1 (String y2 (String y3 (String y4 (String "-"
      (String m1 (String m2 (String "-" (String d1 (String d2 EmptyString))))))))) =>
      a ← digit y1; b ← digit y2; c ← digit y3; d ← digit y4;
      e ← digit m1; f ← digit m2; g ← digit d1; h ← digit d2;
      let y := (1000 * a + 100 * b + 10 * c + d)%Z in
      let m := (10 * e + f)%Z in
      let dd := (10 * g + h)%Z in
      if bool_decide (1 ≤ m ≤ 12)%Z && bool_decide (1 ≤ dd ≤ days_in_month y m)%Z
      then Some (days_from_civil y m dd * msPerDay)%Z
      else None
  | _ => None
  end.

(** The sort of the reference engine, a stable insertion sort: an element
    goes before the first element it does not compare greater than. *)
Fixpoint sort_insert {A} (cmp : A → A → comparison) (x : A) (l : list A) : list A :=
  match l with
  | [] => [x]
  | y :: l' =>
      match cmp x y with
      | Gt => y :: sort_insert cmp x l'
      | _ => x :: y :: l'
      end
  end.

Definition insertion_sort {A} (cmp : A → A → comparison) (l : list A) : list A :=
  foldr (sort_insert cmp) [] l.

#[export] Instance sorting : ArraySort := {| Array_sort := @insertion_sort |}.

#[export] Instance engine : Engine := {|
  number := Z;
  Number_sub_sign := Z.compare;
  Number_toString := pretty;
  Number_isNaN := decimal_isNaN;
  Date_parse := parse_iso_date;
  localeCompare := String.compare;
|}.

(** Decoders that return the same rows for every file. *)
Definition constant_decoders (rows : list DataRow) : Decoders := {|
  Papa_parse := λ _, PapaComplete rows [] None;
  XLSX_read := λ _, ExcelRows rows;
|}.

End Reference.

(** ** Example data, on the reference engine *)
Module Examples.
Import Reference.

Definition row_of (column : string) (v : value) : DataRow := [(column, v)].

(** Scenario A: three regions over ten rows. *)
Definition region_rows : list DataRow :=
  row_of "Region" <$>
    [VString "west"; VString "east"; VString "north"; VString "east"; VString "west";
     VString "north"; VString "east"; VString "west"; VString "east"; VString "north"].

(** Rows that differ in case only, and a row without a value. *)
Definition case_rows : list DataRow :=
  [row_of "Region" (VString "East"); row_of "Region" (VString "east");
   row_of "Region" VNull; row_of "Other" (VString "East");
   row_of "Region" (VString "East")].

(** Scenario B: ISO dates, one unparsable cell. *)
Definition signup_rows : list DataRow :=
  row_of "Signup_Date" <$>
    [VString "2022-12-31"; VString "2023-01-01"; VString "2023-03-15";
     VString "unknown"; VString "2023-06-30"; VString "2023-07-01"].

Definition east_only : gmap string FilterValue :=
  {[ "Region" := FCategory "East" ]}.

Definition first_half_2023 : gmap string FilterValue :=
  {[ "Signup_Date" := FDateRange "2023-01-01" "2023-06-30" ]}.


(** Scenario D: 500 distinct identifiers. *)
Definition userid_rows : list DataRow :=
  (λ i, row_of "UserID" (VNumber (Z.of_nat i))) <$> seq 0 500.

(** Integers out of order, with a repetition. *)
Definition units_rows : list DataRow :=
  row_of "Units" <$> [VNumber 10%Z; VNumber 2%Z; VNumber 33%Z; VNumber 2%Z].

Definition units_rows_reordered : list DataRow :=
  row_of "Units" <$> [VNumber 33%Z; VNumber 2%Z; VNumber 10%Z].

(** A column that holds numbers and a string, in two orders of
    appearance. *)
Definition mixed_rows : list DataRow :=
  row_of "Size" <$> [VNumber 2%Z; VNumber 10%Z; VString "1a"].

Definition mixed_rows_reordered : list DataRow :=
  row_of "Size" <$> [VNumber 10%Z; VString "1a"; VNumber 2%Z].

(** A column without any value next to one with a value. *)
Definition blank_column_rows : list DataRow :=
  [ [("Notes", VNull); ("Name", VString "a")]; [("Name", VString "b")] ].

(** A first row shorter than the next one: it has no cell for [Notes] and
    [When], as after a line of a CSV file with too few fields, or a line of
    a sheet with blank cells. *)
Definition short_first_rows : list DataRow :=
  [ [("Name", VString "alice")];
    [("Name", VString "bob"); ("Notes", VString "hello");
     ("When", VString "2023-01-01")] ].




Definition text_file : File := {| file_name := "notes.txt"; file_content := "hello" |}.
Definition csv_file : File := {| file_name := "Sales.2023.CSV"; file_content := "Region" |}.
Definition xlsx_file : File := {| file_name := "book.xlsx"; file_content := EmptyString |}.

End Examples.

(** ** The rest of [FilterPanel] *)

Global Instance DateField_eq_dec : EqDecision DateField.
Proof. solve_decision. Defined.

(** [clearAll]: [setActiveFilters({})] *)
Definition clearAll (prev : gmap string FilterValue) : gmap string FilterValue := ∅.



(** ** [SearchableDropdown] *)

(** [s.startsWith(needle)] *)
Fixpoint startsWith (s needle : string) {struct needle} : bool :=
  match needle, s with
  | EmptyString, _ => true
  | String c needle', String d s' => bool_decide (c = d) && startsWith s' needle'
  | String _ _, EmptyString => false
  end.

(** [s.includes(needle)] *)
Fixpoint includes (s needle : string) : bool :=
  startsWith s needle
  || match s with
     | EmptyString => false
     | String _ s' => includes s' needle
     end.

(** [options.filter(opt => opt.toLowerCase().includes(searchTerm.toLowerCase()))] *)
Definition filteredOptions (options : list string) (searchTerm : string) : list string :=
  filter (λ opt, includes (toLowerCase opt) (toLowerCase searchTerm)) options.

(** ** [ChartWidget] *)

Definition COLORS : list string :=
  ["#6366f1"; "#10b981"; "#f59e0b"; "#ec4899"; "#8b5cf6"; "#06b6d4"; "#f43f5e"].

(** The legend event, of which the handlers read [dataKey] and [value]. *)
Record LegendEvent := {
  legend_dataKey : option string;
  legend_value : option string;
}.

(** [e.dataKey || e.value]; [None] is [undefined] *)
Definition legend_key (e : LegendEvent) : option string :=
  match legend_dataKey e with
  | Some k => if truthy k then Some k else legend_value e
  | None => legend_value e
  end.

(** [handleLegendClick], as the function given to [setHiddenSeries].  The
    set may come to hold [undefined]. *)
Definition handleLegendClick (e : LegendEvent) (prev : gset (option string))
    : gset (option string) :=
  let key := legend_key e in
  if decide (key ∈ prev) then prev ∖ {[ key ]} else prev ∪ {[ key ]}.

(** [String(entry[key])], where a missing key gives [undefined] *)
Definition String_of_cell `{Engine} (cell : option value) : string :=
  match cell with
  | Some v => String_of v
  | None => "undefined"
  end.

(** [data.filter(entry => !hiddenSeries.has(String(entry[config.xKey])))] *)
Definition pieData `{Engine} (data : list DataRow) (xKey : string)
    (hiddenSeries : gset (option string)) : list DataRow :=
  filter (λ entry, Some (String_of_cell (row_get entry xKey)) ∉ hiddenSeries) data.

(** [l.findIndex(p)]: the first position that passes, -1 when none does *)
Fixpoint Array_findIndex {A} (p : A → bool) (l : list A) : Z :=
  match l with
  | [] => (-1)%Z
  | x :: l' =>
      if p x then 0%Z
      else let i := Array_findIndex p l' in
           if bool_decide (i < 0)%Z then (-1)%Z else (i + 1)%Z
  end.

(** [COLORS[i]]: [undefined] outside the array *)
Definition COLORS_at (i : Z) : option string :=
  if bool_decide (i < 0)%Z then None else COLORS !! Z.to_nat i.

(** The [fill] of the pie cell of [entry]:
    [COLORS[originalIndex % COLORS.length]], the remainder taking the sign of
    [originalIndex]. *)
Definition pie_cell_fill `{Engine} (data : list DataRow) (xKey : string) (entry : DataRow)
    : option string :=
  let name := String_of_cell (row_get entry xKey) in
  let originalIndex :=
    Array_findIndex (λ d, bool_decide (String_of_cell (row_get d xKey) = name)) data in
  COLORS_at (Z.rem originalIndex (Z.of_nat (length COLORS))).

(** ** [Dashboard] *)

(** The name of the exported file: [`${fileName.split('.')[0]}_overview.pdf`] *)
Definition pdf_name (fileName : string) : string :=
  default "undefined" (head (split "." fileName)) +:+ "_overview.pdf".

(** [segments.join(sep)] *)
Fixpoint join (sep : string) (segments : list string) : string :=
  match segments with
  | [] => EmptyString
  | [seg] => seg
  | seg :: rest => seg +:+ sep +:+ join sep rest
  end.

(** ** [FileUpload] *)

Definition validTypes : list string :=
  ["text/csv"; "application/vnd.ms-excel";
   "application/vnd.openxmlformats-officedocument.spreadsheetml.sheet"].

(** [validateAndPassFile]; [file_type] is [file.type].  [inr] is the call of
    [onFileSelect] with the file, [inl] the error message put in the
    component state. *)
Definition validateAndPassFile (file_type : string) (file : File) : string + File :=
  let extension := extension_of file in
  let isCsvOrExcel :=
    bool_decide (extension = Some "csv") || bool_decide (extension = Some "xls")
    || bool_decide (extension = Some "xlsx") in
  if bool_decide (file_type ∈ validTypes) || isCsvOrExcel then inr file
  else inl "Please upload a valid CSV or Excel file.".

(** ** The services ([dataService.ts], [geminiService.ts]) and [App] *)

(** The payload of [prepareDataSample] before serialisation. *)
Record SamplePayload `{Engine} := {
  payload_headers : list string;
  payload_rowCount : nat;
  payload_sample : list DataRow;
}.

(** What this code does not define: the serialiser, the remote model and the
    JSON reader.  [DashboardConfig] is whatever [JSON.parse] returns, since
    the cast to the interface checks nothing; [config_truthy] is its
    truthiness. *)
Class Services `{Engine} := {
  DashboardConfig : Type;
  config_truthy : DashboardConfig → bool;
  (** [JSON.stringify(payload, null, 2)] *)
  JSON_stringify : SamplePayload → string;
  (** [genAI.models.generateContent] on the prompt written around the data
      sample: a rejection, or [response.text], [None] for [undefined] *)
  generateContent : string → Error + option string;
  (** [JSON.parse]: a thrown error or the value *)
  JSON_parse : string → Error + DashboardConfig;
}.

Definition sampleSize : nat := 50.

Definition sample_payload `{Engine} (dataset : DataSet) : SamplePayload :=
  {| payload_headers := headers dataset;
     payload_rowCount := rowCount dataset;
     payload_sample := take sampleSize (data dataset) |}.

Definition prepareDataSample `{Services} (dataset : DataSet) : string :=
  JSON_stringify (sample_payload dataset).

(** The [try] block of [generateDashboardConfig]; [inl] is what reaches the
    [catch]. *)
Definition analysis_attempt `{Services} (dataSample : string) : Error + DashboardConfig :=
  match generateContent dataSample with
  | inl e => inl e
  | inr text =>
      if truthy (default EmptyString text) then JSON_parse (default EmptyString text)
      else inl (MkError "Empty response from AI")
  end.

Definition generateDashboardConfig `{Services} (dataSample : string)
    : Error + DashboardConfig :=
  match analysis_attempt dataSample with
  | inl _ => inl (MkError "Failed to analyze data. Please try again.")
  | inr config => inr config
  end.

(** [interface AnalysisState]; [None] is [null] *)
Record AnalysisState `{Services} := {
  isLoading : bool;
  error : option string;
  config : option DashboardConfig;
}.

(** The state of [App] that the handlers write. *)
Record AppState `{Services} := {
  dataSet : option DataSet;
  analysis : AnalysisState;
}.

(** [useState(null)] and the initial analysis *)
Definition initial_app `{Services} : AppState :=
  {| dataSet := None;
     analysis := {| isLoading := false; error := None; config := None |} |}.

(** [analysis.config && dataSet]: the dashboard is rendered, not the upload
    screen *)
Definition dashboard_shown `{Services} (st : AppState) : bool :=
  match config (analysis st), dataSet st with
  | Some c, Some _ => config_truthy c
  | _, _ => false
  end.

(** [err.message || "An unexpected error occurred"] *)
Definition error_message (err : Error) : string :=
  match err with
  | MkError message =>
      if truthy message then message else "An unexpected error occurred"
  end.

(** What a run of [handleFileSelect] did besides writing state. *)
Inductive AppEvent :=
  | Parsing (e : Event)
  | ModelCalled (dataSample : string)
  | ConsoleError.

Definition is_model_call (ev : AppEvent) : bool :=
  match ev with ModelCalled _ => true | _ => false end.

(** The states written by the [catch] block, in order: [setAnalysis], then
    [setDataSet(null)]. *)
Definition failure_states `{Services} (st : AppState) (err : Error) : list AppState :=
  let failed := {| isLoading := false; error := Some (error_message err); config := None |} in
  [ {| dataSet := dataSet st; analysis := failed |};
    {| dataSet := None; analysis := failed |} ].

(** [handleFileSelect(file)] from the state [st]: the events of the run and
    the state after each state write, in order. *)
Definition handleFileSelect `{Decoders} `{!Services} (file : File) (st : AppState)
    : list AppEvent * list AppState :=
  let st1 := {| dataSet := dataSet st;
                analysis := {| isLoading := true; error := None;
                               config := config (analysis st) |} |} in
  let '(parse_events, parsed) := parseFile file in
  match parsed with
  | inl err => ((Parsing <$> parse_events) ++ [ConsoleError], st1 :: failure_states st1 err)
  | inr dataset =>
      let st2 := {| dataSet := Some dataset; analysis := analysis st1 |} in
      let sample := prepareDataSample dataset in
      match generateDashboardConfig sample with
      | inr config =>
          ((Parsing <$> parse_events) ++ [ModelCalled sample],
           [st1; st2;
            {| dataSet := Some dataset;
               analysis := {| isLoading := false; error := None;
                              config := Some config |} |}])
      | inl err =>
          ((Parsing <$> parse_events) ++ [ModelCalled sample; ConsoleError; ConsoleError],
           st1 :: st2 :: failure_states st2 err)
      end
  end.

(** The state a run ends in. *)
Definition handleFileSelect_final `{Decoders} `{!Services} (file : File) (st : AppState)
    : AppState :=
  default st (last (handleFileSelect file st).2).

(** [handleReset] *)
Definition handleReset `{Services} (st : AppState) : AppState :=
  {| dataSet := None;
     analysis := {| isLoading := false; error := None; config := None |} |}.

(** What the theme code reads from the browser: [localStorage.getItem('theme')]
    and whether the system prefers a dark scheme. *)
Record Browser := {
  stored_theme : option string;
  prefers_dark : bool;
}.

(** The initial value of [isDarkMode] *)
Definition initial_isDarkMode (b : Browser) : bool :=
  bool_decide (stored_theme b = Some "dark")
  || (negb (truthy (default EmptyString (stored_theme b))) && prefers_dark b).

(** The effect on [isDarkMode]: [localStorage.setItem('theme', ...)] *)
Definition persist_theme (isDarkMode : bool) (b : Browser) : Browser :=
  {| stored_theme := Some (if isDarkMode then "dark" else "light");
     prefers_dark := prefers_dark b |}.

(** [toggleTheme] *)
Definition toggleTheme (isDarkMode : bool) : bool := negb isDarkMode.

(** [analysis.config], as a condition *)
Definition config_usable `{Services} (st : AppState) : bool :=
  match config (analysis st) with
  | Some c => config_truthy c
  | None => false
  end.

(** The states of [App] between two user actions: the initial one, the one a
    run of [handleFileSelect] ends in (the file input is on the upload
    screen only), and the one after New Analysis. *)
Inductive reachable `{Decoders} `{!Services} : AppState → Prop :=
  | reachable_initial : reachable initial_app
  | reachable_upload file st :
      reachable st → dashboard_shown st = false →
      reachable (handleFileSelect_final file st)
  | reachable_reset st : reachable st → reachable (handleReset st).

(** ** More example data, on the reference engine *)
Module MoreExamples.
Import Reference Examples.

(** Decoders that report a parse error beside the rows. *)
Definition warning_decoders (rows : list DataRow) : Decoders := {|
  Papa_parse := λ _, PapaComplete rows ["TooFewFields"] None;
  XLSX_read := λ _, ExcelRows rows;
|}.

(** Services that keep the JSON text as the configuration and answer every
    request with the same text. *)
Definition echo_services (answer : option string) : Services := {|
  DashboardConfig := string;
  config_truthy := truthy;
  JSON_stringify := λ payload, pretty (payload_rowCount payload);
  generateContent := λ _, inr answer;
  JSON_parse := λ text, inr text;
|}.

Definition other_only : gmap string FilterValue :=
  {[ "Other" := FCategory "East" ]}.

Definition region_descriptor : ColumnMeta :=
  {| name := "Region"; type := categorical;
     options := Some ["east"; "north"; "west"] |}.

Definition parsed_blank_column : DataSet :=
  {| fileName := "Sales.2023.CSV"; headers := ["Notes"; "Name"];
     data := blank_column_rows; rowCount := 2 |}.

(** Two uploads in a row: a text file, which is refused, and then a CSV
    file, which is parsed and analysed. *)
Definition after_refused_file : AppState (H0 := echo_services (Some "{}")) :=
  handleFileSelect_final (H0 := warning_decoders blank_column_rows)
    (H1 := echo_services (Some "{}")) text_file initial_app.

Definition after_upload : AppState (H0 := echo_services (Some "{}")) :=
  handleFileSelect_final (H0 := warning_decoders blank_column_rows)
    (H1 := echo_services (Some "{}")) csv_file after_refused_file.

End MoreExamples.

(** * Properties *)

(** ** Positions kept by a filter *)

Section positions.
Context {A : Type} (P : A → Prop) `{∀ x, Decision (P x)}.

Lemma omap_lookup_cons_S (x : A) (l : list A) (positions : list nat) :
  omap (λ i, (x :: l) !! i) (S <$> positions) = omap (λ i, l !! i) positions.
Proof.
  induction positions as [|i positions IH]; [done|].
  cbn [fmap list_fmap omap list_omap]. rewrite <-IH. done.
Qed.

(** What [filter] keeps, by position: strictly increasing positions of the
    input. *)
Lemma filter_positions (l : list A) :
  ∃ positions : list nat,
    StronglySorted lt positions
    ∧ Forall (λ i, i < length l) positions
    ∧ filter P l = omap (λ i, l !! i) positions.
Proof.
  induction l as [|x l (positions & Hsorted & Hbound & Heq)].
  { exists []. split_and!; [constructor|constructor|done]. }
  assert (StronglySorted lt (S <$> positions)) as Hsorted'.
  { eapply StronglySorted_fmap; [|exact Hsorted]. intros i j. simpl. lia. }
  assert (Forall (λ i, i < length (x :: l)) (S <$> positions)) as Hbound'.
  { apply Forall_fmap. eapply Forall_impl; [done|]. simpl. lia. }
  rewrite filter_cons. destruct (decide (P x)).
  - exists (0 :: (S <$> positions)). split_and!.
    + constructor; [done|]. apply Forall_fmap, Forall_true. simpl. lia.
    + constructor; [simpl; lia|done].
    + cbn [omap list_omap lookup list_lookup]. by rewrite omap_lookup_cons_S, Heq.
  - exists (S <$> positions). split_and!; [done..|].
    by rewrite omap_lookup_cons_S.
Qed.
End positions.

(** ** Filter evaluator *)

Section evaluator.
Context `{Engine}.
Implicit Types (D : list DataRow) (M C : gmap string FilterValue) (row : DataRow).

Lemma filter_keys_length M : length (filter_keys M) = 0 ↔ M = ∅.
Proof.
  unfold filter_keys. rewrite length_fmap, length_zero_iff_nil.
  apply map_to_list_empty_iff.
Qed.

Lemma row_passes_lookup M row :
  row_passes M row ↔ ∀ key fv, M !! key = Some fv → entry_passes row (key, fv).
Proof.
  unfold row_passes. rewrite Is_true_true, forallb_forall. split.
  - intros Hall key fv Hk. apply Is_true_true, Hall.
    apply list_elem_of_In, elem_of_map_to_list, Hk.
  - intros Hall [key fv] Hin. apply Is_true_true, Hall.
    by apply elem_of_map_to_list, list_elem_of_In.
Qed.

Lemma evaluate_no_constraints D : evaluate D ∅ = D.
Proof. done. Qed.

(** With or without constraints, the output is the rows that pass. *)
Lemma evaluate_filter D M : evaluate D M = filter (λ row, row_passes M row) D.
Proof.
  unfold evaluate. case_decide as Hk; [|done].
  apply filter_keys_length in Hk as ->.
  induction D as [|row D IH]; [done|].
  rewrite filter_cons_True; [by f_equal|]. done.
Qed.

Lemma num_le_finite (a b : Z) : num_le (TFinite a) (TFinite b) ↔ (a ≤ b)%Z.
Proof. simpl. apply bool_decide_spec. Qed.

Lemma start_bound_spec (start : string) (t : Z) :
  num_ge (TFinite t) (if truthy start then getTime (Date_parse start) else TNegInf)
  ↔ within_start start t.
Proof.
  unfold within_start, truthy, num_ge.
  destruct (decide (start = EmptyString)) as [->|Hne]; simpl.
  - split; [by left|done].
  - rewrite bool_decide_false by done. simpl.
    destruct (Date_parse start) as [s|]; simpl.
    + rewrite bool_decide_spec. split.
      * intros ?. right. by exists s.
      * intros [?|(s' & Hs' & ?)]; [done|]. by injection Hs' as ->.
    + split; [done|]. by intros [?|(s' & Hs' & ?)].
Qed.

Lemma end_bound_spec (end_ : string) (t : Z) :
  num_le (TFinite t) (if truthy end_ then getTime (Date_parse end_) else TPosInf)
  ↔ within_end end_ t.
Proof.
  unfold within_end, truthy.
  destruct (decide (end_ = EmptyString)) as [->|Hne]; simpl.
  - split; [by left|done].
  - rewrite bool_decide_false by done. simpl.
    destruct (Date_parse end_) as [e|]; simpl.
    + rewrite bool_decide_spec. split.
      * intros ?. right. by exists e.
      * intros [?|(e' & He' & ?)]; [done|]. by injection He' as ->.
    + split; [done|]. by intros [?|(e' & He' & ?)].
Qed.

(** The callback of [every] decides the specification's [satisfies]. *)
Lemma entry_passes_satisfies row key fv :
  entry_passes row (key, fv) ↔ satisfies row key fv.
Proof.
  unfold entry_passes, satisfies.
  destruct (row_get row key) as [v|]; [|split; [done|by intros (? & ? & _)]].
  destruct (decide (v = VNull)) as [->|Hv].
  { split; [done|]. intros (v' & Hv' & ? & _). by injection Hv' as <-. }
  transitivity (match fv with
                | FCategory selected => String_of v = selected
                | FDateRange start end_ =>
                    ∃ t, Date_parse (String_of v) = Some t
                         ∧ within_start start t ∧ within_end end_ t
                end).
  2:{ split.
      - intros ?. by exists v.
      - intros (v' & Hv' & _ & ?). by injection Hv' as <-. }
  assert (∀ b : bool, (match v with VNull => false | _ => b end) = b) as ->
    by (by destruct v).
  destruct fv as [selected|start end_].
  - apply bool_decide_spec.
  - cbv zeta. destruct (Date_parse (String_of v)) as [t|] eqn:Hp; cbn [getTime isNaN].
    + rewrite andb_True, start_bound_spec, end_bound_spec. split.
      * intros ?. by exists t.
      * intros (t' & Ht' & ?). by injection Ht' as <-.
    + split; [done|]. by intros (t' & Ht' & ?).
Qed.

Lemma row_passes_satisfies M row :
  row_passes M row ↔ map_Forall (satisfies row) M.
Proof.
  rewrite row_passes_lookup. unfold map_Forall.
  by setoid_rewrite entry_passes_satisfies.
Qed.

(** [applyFilters] reads and allocates what [evaluate] computes. *)
Lemma applyFilters_contents (h : heap) (a : ref) D M h' a' :
  h !! a = Some D → applyFilters h a M = Some (h', a') → h' !! a' = Some (evaluate D M).
Proof.
  unfold applyFilters, evaluate, Array_filter. intros Ha.
  case_decide; [by intros [= <- <-]|].
  rewrite Ha. simpl. intros [= <- <-].
  apply list_lookup_middle. done.
Qed.

(** With a constraint set, the array passed on is a new one. *)
Lemma applyFilters_fresh (h : heap) (a : ref) D M :
  h !! a = Some D → M ≠ ∅ →
  ∃ h', applyFilters h a M = Some (h', length h) ∧ a ≠ length h.
Proof.
  unfold applyFilters, Array_filter. intros Ha HM.
  case_decide as Hk; [by apply filter_keys_length in Hk|].
  rewrite Ha. simpl. eexists. split; [done|].
  apply lookup_lt_Some in Ha. lia.
Qed.

(** C1.  The evaluator keeps exactly the rows that satisfy every active
    constraint, a conjunction over the constrained columns and nothing
    else.  A categorical constraint is met when the row has a non-null
    value for the column whose string form is the selected value, compared
    as strings (so case matters); a row whose value for a constrained
    column is null or missing is dropped. *)
Theorem evaluate_retains_iff_all_constraints D C :
  evaluate D C = filter (λ row, map_Forall (satisfies row) C) D
  ∧ (∀ row, row ∈ evaluate D C ↔
       row ∈ D ∧ ∀ key fv, C !! key = Some fv → satisfies row key fv)
  ∧ (∀ row key selected, C !! key = Some (FCategory selected) →
       row ∈ evaluate D C →
       ∃ v, row_get row key = Some v ∧ v ≠ VNull ∧ String_of v = selected)
  ∧ (∀ row key fv, C !! key = Some fv →
       row_get row key = None ∨ row_get row key = Some VNull →
       row ∉ evaluate D C).
Proof.
  assert (∀ row, row ∈ evaluate D C ↔
            row ∈ D ∧ ∀ key fv, C !! key = Some fv → satisfies row key fv) as Hmem.
  { intros row. rewrite evaluate_filter, list_elem_of_filter, row_passes_satisfies.
    unfold map_Forall. tauto. }
  split_and!; [|done| |].
  - rewrite evaluate_filter. apply list_filter_iff.
    intros row. apply row_passes_satisfies.
  - intros row key selected Hk [_ Hall]%Hmem. apply (Hall _ _ Hk).
  - intros row key fv Hk Hnull [_ Hall]%Hmem.
    destruct (Hall _ _ Hk) as (v & Hv & Hne & _).
    destruct Hnull as [Hnull|Hnull]; rewrite Hnull in Hv; [done|].
    by injection Hv as <-.
Qed.

(** C2.  Under a date-range constraint the row's value is parsed as a date
    and the row fails when the parse fails; a missing start bound allows
    every date, as does a missing end bound; otherwise the row passes
    exactly when start <= row date <= end, both ends included. *)
Theorem date_range_constraint row key start end_ :
  (∀ v, row_get row key = Some v → Date_parse (String_of v) = None →
     ¬ entry_passes row (key, FDateRange start end_))
  ∧ (∀ v t, row_get row key = Some v → v ≠ VNull →
       Date_parse (String_of v) = Some t →
       (entry_passes row (key, FDateRange start end_) ↔
          (start = EmptyString ∨ ∃ s, Date_parse start = Some s ∧ (s ≤ t)%Z)
          ∧ (end_ = EmptyString ∨ ∃ e, Date_parse end_ = Some e ∧ (t ≤ e)%Z)))
  ∧ (∀ v t s e, row_get row key = Some v → v ≠ VNull →
       Date_parse (String_of v) = Some t →
       Date_parse start = Some s → Date_parse end_ = Some e →
       start ≠ EmptyString → end_ ≠ EmptyString →
       (entry_passes row (key, FDateRange start end_) ↔ (s ≤ t ≤ e)%Z))
  ∧ (∀ D M, M !! key = Some (FDateRange start end_) →
       ∀ r, r ∈ evaluate D M → entry_passes r (key, FDateRange start end_)).
Proof.
  assert (∀ v t, row_get row key = Some v → v ≠ VNull →
       Date_parse (String_of v) = Some t →
       (entry_passes row (key, FDateRange start end_) ↔
          within_start start t ∧ within_end end_ t)) as Hiff.
  { intros v t Hv Hne Ht. rewrite entry_passes_satisfies. unfold satisfies. split.
    - intros (v' & Hv' & _ & t' & Ht' & ?). rewrite Hv in Hv'. injection Hv' as <-.
      rewrite Ht in Ht'. by injection Ht' as <-.
    - intros ?. exists v. split_and!; [done..|]. by exists t. }
  split_and!.
  - intros v Hv Hp. rewrite entry_passes_satisfies.
    intros (v' & Hv' & _ & t & Ht & _). rewrite Hv in Hv'. injection Hv' as <-.
    by rewrite Hp in Ht.
  - exact Hiff.
  - intros v t s e Hv Hne Ht Hs He Hs0 He0. rewrite (Hiff v t) by done.
    unfold within_start, within_end. rewrite Hs, He. split.
    + intros [[?|(s' & [= <-] & ?)] [?|(e' & [= <-] & ?)]]; done.
    + intros [??]. split; right; eauto.
  - intros D M Hk r Hr. rewrite evaluate_filter, list_elem_of_filter in Hr.
    destruct Hr as [Hr _]. by apply (proj1 (row_passes_lookup M r) Hr).
Qed.

(** C5.  With no constraint the evaluator hands on the dataset itself: the
    same sequence of rows, and the very array it was given, the heap left
    as it was. *)
Theorem evaluate_empty_identity (h : heap) (dataref : ref) D :
  evaluate D ∅ = D ∧ applyFilters h dataref ∅ = Some (h, dataref).
Proof. split; [apply evaluate_no_constraints|done]. Qed.

(** C6.  Whatever the constraints, the output is a subsequence of the
    dataset: its rows are rows of the dataset, in their original relative
    order, none taken twice (the output reads the dataset at strictly
    increasing positions). *)
Theorem evaluate_order_preserving_subset D C :
  evaluate D C `sublist_of` D
  ∧ (∀ row, row ∈ evaluate D C → row ∈ D)
  ∧ (NoDup D → NoDup (evaluate D C))
  ∧ length (evaluate D C) ≤ length D
  ∧ (∃ positions : list nat,
       StronglySorted lt positions
       ∧ Forall (λ i, i < length D) positions
       ∧ evaluate D C = omap (λ i, D !! i) positions).
Proof.
  assert (evaluate D C `sublist_of` D) as Hsub.
  { rewrite evaluate_filter. apply sublist_filter. }
  split_and!; [done| | | |].
  - intros row Hrow. by eapply elem_of_sublist.
  - intros Hnd. by eapply sublist_NoDup.
  - by apply sublist_length.
  - rewrite evaluate_filter. apply filter_positions.
Qed.

End evaluator.

(** ** Constraint updates *)

Section updates.
Context `{Engine}.
Implicit Types (M : gmap string FilterValue) (column value : string) (field : DateField).

Lemma handleCategoryChange_clear M column :
  handleCategoryChange column EmptyString M = delete column M.
Proof. done. Qed.

Lemma handleCategoryChange_set M column value :
  value ≠ EmptyString → handleCategoryChange column value M = <[column := FCategory value]> M.
Proof. intros Hv. unfold handleCategoryChange. by case_decide. Qed.

Lemma truthy_empty s : truthy s = false ↔ s = EmptyString.
Proof.
  unfold truthy. rewrite negb_false_iff. split.
  - by intros ?%bool_decide_eq_true.
  - intros ->. done.
Qed.

(** The range written by [handleDateChange]: the updated field holds
    [value], the other one what was stored. *)
Lemma handleDateChange_cases M column field value :
  let kept := stored_bound M column (other_field field) in
  (value = EmptyString ∧ kept = EmptyString ∧ handleDateChange column field value M = delete column M)
  ∨ (¬ (value = EmptyString ∧ kept = EmptyString) ∧
     handleDateChange column field value M =
       <[column := match field with
                   | field_start => FDateRange value kept
                   | field_end => FDateRange kept value
                   end]> M).
Proof.
  unfold handleDateChange, stored_bound, truthy.
  destruct (M !! column) as [[sel|s e]|], field; simpl;
    repeat case_bool_decide; simpl; subst;
    first [left; by split_and! | right; split; [by intros [??]|done]].
Qed.

Lemma handleCategoryChange_set_clear M column value :
  handleCategoryChange column EmptyString (handleCategoryChange column value M) = delete column M.
Proof.
  rewrite handleCategoryChange_clear. unfold handleCategoryChange.
  case_decide; [by rewrite delete_delete_eq|by rewrite delete_insert_eq].
Qed.

(** C8.  Clearing a constraint removes the column's entry instead of
    storing an empty one: the category handler deletes the entry on the
    empty value and never stores the empty string; the date handler leaves
    no entry exactly when both bounds end up empty.  Hence setting a
    category and clearing it again leaves the mapping without the column
    (unchanged, if the column had no entry), and starting from no
    constraints the filtered output is the full dataset again. *)
Theorem clearing_removes_constraint M column :
  handleCategoryChange column EmptyString M = delete column M
  ∧ handleCategoryChange column EmptyString M !! column = None
  ∧ (∀ value, handleCategoryChange column value M !! column ≠ Some (FCategory EmptyString))
  ∧ (∀ field value,
       handleDateChange column field value M !! column = None ↔
       value = EmptyString ∧ stored_bound M column (other_field field) = EmptyString)
  ∧ (∀ value, M !! column = None →
       handleCategoryChange column EmptyString (handleCategoryChange column value M) = M)
  ∧ (∀ (D : list DataRow) value,
       evaluate D (handleCategoryChange column EmptyString (handleCategoryChange column value M))
       = evaluate D (delete column M))
  ∧ (∀ (D : list DataRow) value,
       evaluate D (handleCategoryChange column EmptyString (handleCategoryChange column value ∅)) = D).
Proof.
  split_and!.
  - done.
  - rewrite handleCategoryChange_clear. apply lookup_delete_eq.
  - intros value. unfold handleCategoryChange. case_decide as Hv.
    + by rewrite lookup_delete_eq.
    + rewrite lookup_insert_eq. by intros [= ->].
  - intros field value.
    destruct (handleDateChange_cases M column field value) as [(Hv & Hk & ->)|[Hn ->]].
    + by rewrite lookup_delete_eq.
    + rewrite lookup_insert_eq. split; [by destruct field|done].
  - intros value Hnone. rewrite handleCategoryChange_set_clear.
    by apply delete_id.
  - intros D value. by rewrite handleCategoryChange_set_clear.
  - intros D value. rewrite handleCategoryChange_set_clear, delete_empty.
    apply evaluate_no_constraints.
Qed.

(** C10.  Updating or clearing the constraint of one column leaves the
    entry of every other column as it was: none is added, removed or
    changed. *)
Theorem updates_leave_other_columns M column other value field bound :
  other ≠ column →
  handleCategoryChange column value M !! other = M !! other
  ∧ handleDateChange column field bound M !! other = M !! other.
Proof.
  intros Hne. split.
  - unfold handleCategoryChange.
    case_decide; [by rewrite lookup_delete_ne|by rewrite lookup_insert_ne].
  - destruct (handleDateChange_cases M column field bound) as [(_ & _ & ->)|[_ ->]];
      [by rewrite lookup_delete_ne|by rewrite lookup_insert_ne].
Qed.

End updates.

(** ** Sorting and the distinct values *)

Section sorting.
Context {A : Type} (cmp : A → A → comparison).
Implicit Types (x a b : A) (l : list A).

Lemma sort_insert_perm x l : Reference.sort_insert cmp x l ≡ₚ x :: l.
Proof.
  induction l as [|y l IH]; [done|]. simpl.
  destruct (cmp x y); [done..|]. rewrite IH. apply Permutation_swap.
Qed.

Lemma insertion_sort_cons x l :
  Reference.insertion_sort cmp (x :: l)
  = Reference.sort_insert cmp x (Reference.insertion_sort cmp l).
Proof. done. Qed.

Lemma insertion_sort_perm l : Reference.insertion_sort cmp l ≡ₚ l.
Proof.
  induction l as [|x l IH]; [done|].
  by rewrite insertion_sort_cons, sort_insert_perm, IH.
Qed.

Lemma strict_total_order_on_spec l :
  strict_total_order_on cmp l ↔
    (∀ a b, a ∈ l → b ∈ l → cmp b a = CompOpp (cmp a b))
    ∧ (∀ a b, a ∈ l → b ∈ l → cmp a b = Eq → a = b)
    ∧ (∀ a b c, a ∈ l → b ∈ l → c ∈ l → cmp a b = Lt → cmp b c = Lt → cmp a c = Lt).
Proof.
  unfold strict_total_order_on. repeat setoid_rewrite Forall_forall. split.
  - intros Hall. split_and!.
    + intros a b Ha Hb. apply (Hall a Ha b Hb).
    + intros a b Ha Hb. apply (Hall a Ha b Hb).
    + intros a b c Ha Hb Hc. by apply (Hall a Ha b Hb).
  - intros (Hopp & Heq & Htr) a Ha b Hb. split_and!; eauto.
Qed.

Lemma strict_total_order_on_perm l l' :
  (∀ a, a ∈ l' → a ∈ l) → strict_total_order_on cmp l → strict_total_order_on cmp l'.
Proof.
  rewrite !strict_total_order_on_spec. intros Hsub (Hopp & Heq & Htr).
  split_and!; eauto 10.
Qed.

Section ordered.
Context (U : list A) (Hord : strict_total_order_on cmp U).

Lemma not_after_trans a b c :
  a ∈ U → b ∈ U → c ∈ U →
  not_after cmp a b → not_after cmp b c → not_after cmp a c.
Proof.
  apply strict_total_order_on_spec in Hord as (Hopp & Heq & Htr).
  unfold not_after. intros Ha Hb Hc Hab Hbc.
  destruct (cmp a b) eqn:E1; [|clear Hab|done].
  { by rewrite (Heq a b Ha Hb E1). }
  destruct (cmp b c) eqn:E2; [|clear Hbc|done].
  { by rewrite <-(Heq b c Hb Hc E2), E1. }
  by rewrite (Htr a b c).
Qed.

Lemma not_after_antisym a b :
  a ∈ U → b ∈ U → not_after cmp a b → not_after cmp b a → a = b.
Proof.
  apply strict_total_order_on_spec in Hord as (Hopp & Heq & Htr).
  unfold not_after. intros Ha Hb Hab Hba. rewrite (Hopp a b Ha Hb) in Hba.
  destruct (cmp a b) eqn:E; [by apply Heq|done|done].
Qed.

Lemma sort_insert_sorted x l :
  x ∈ U → (∀ y, y ∈ l → y ∈ U) →
  StronglySorted (not_after cmp) l →
  StronglySorted (not_after cmp) (Reference.sort_insert cmp x l).
Proof.
  intros Hx Hl Hs. induction Hs as [|y l Hs IH Hy]; simpl.
  { repeat constructor. }
  assert (y ∈ U) as HyU by (apply Hl; left).
  assert (∀ z, z ∈ l → z ∈ U) as HlU by (intros z Hz; apply Hl; by right).
  destruct (cmp x y) eqn:E.
  - constructor; [by constructor|]. constructor; [unfold not_after; congruence|].
    rewrite Forall_forall in *. intros z Hz.
    apply (not_after_trans x y z); auto. unfold not_after; congruence.
  - constructor; [by constructor|]. constructor; [unfold not_after; congruence|].
    rewrite Forall_forall in *. intros z Hz.
    apply (not_after_trans x y z); auto. unfold not_after; congruence.
  - constructor; [by apply IH|].
    rewrite Forall_forall in *. intros z Hz.
    rewrite sort_insert_perm in Hz. inv Hz; [|by auto].
    apply strict_total_order_on_spec in Hord as (Hopp & _ & _).
    unfold not_after. rewrite (Hopp x y Hx HyU), E. done.
Qed.

Lemma insertion_sort_sorted l :
  (∀ y, y ∈ l → y ∈ U) → StronglySorted (not_after cmp) (Reference.insertion_sort cmp l).
Proof.
  induction l as [|x l IH]; intros Hl; [constructor|].
  rewrite insertion_sort_cons. apply sort_insert_sorted.
  - apply Hl. left.
  - intros y Hy. rewrite insertion_sort_perm in Hy. apply Hl. by right.
  - apply IH. intros y Hy. apply Hl. by right.
Qed.
End ordered.
End sorting.

(** The sort of the reference engine keeps to what ECMAScript fixes. *)
Global Instance insertion_sort_laws : @ArraySortLaws Reference.sorting.
Proof.
  split.
  - intros A cmp l. apply insertion_sort_perm.
  - intros A cmp l Hord. by apply (insertion_sort_sorted cmp l Hord).
Qed.

(** What follows for the sort of any engine. *)
Section engine_sort.
Context `{ArraySortLaws} {A : Type} (cmp : A → A → comparison).
Implicit Types (x a b : A) (l : list A).

Lemma Array_sort_perm l : Array_sort cmp l ≡ₚ l.
Proof. apply Array_sort_rearranges. Qed.

Section ordered_by.
Context (U : list A) (Hord : strict_total_order_on cmp U).

Lemma Array_sort_sorted l :
  (∀ y, y ∈ l → y ∈ U) → StronglySorted (not_after cmp) (Array_sort cmp l).
Proof.
  intros Hl. apply Array_sort_ascending.
  by apply (strict_total_order_on_perm cmp U).
Qed.

(** On a strict total order the result does not depend on the order of
    the input. *)
Lemma Array_sort_perm_eq l l' :
  (∀ y, y ∈ l → y ∈ U) → l ≡ₚ l' → Array_sort cmp l = Array_sort cmp l'.
Proof.
  intros Hl Hperm.
  assert (∀ y, y ∈ l' → y ∈ U) as Hl' by (intros y; rewrite <-Hperm; apply Hl).
  apply (StronglySorted_unique_strong (not_after cmp)).
  - intros x1 x2 H1 H2. rewrite Array_sort_perm in H1, H2.
    apply (not_after_antisym cmp U); auto.
  - by apply Array_sort_sorted.
  - by apply Array_sort_sorted.
  - by rewrite !Array_sort_perm.
Qed.
End ordered_by.
End engine_sort.

Section order_transport.
Context {A B : Type} (f : A → B).
Context (cmp : A → A → comparison) (cmp' : B → B → comparison).
Context (Hcmp : ∀ a b, cmp' (f a) (f b) = cmp a b).

(** A strict total order is carried along a map that respects the
    comparator. *)
Lemma strict_total_order_on_fmap (l : list A) :
  strict_total_order_on cmp l → strict_total_order_on cmp' (f <$> l).
Proof.
  rewrite !strict_total_order_on_spec. intros (Hopp & Heq & Htr). split_and!.
  - intros ? ? (a & -> & Ha)%list_elem_of_fmap (b & -> & Hb)%list_elem_of_fmap.
    rewrite !Hcmp. by apply Hopp.
  - intros ? ? (a & -> & Ha)%list_elem_of_fmap (b & -> & Hb)%list_elem_of_fmap.
    rewrite Hcmp. intros ?. f_equal. by apply Heq.
  - intros ? ? ? (a & -> & Ha)%list_elem_of_fmap (b & -> & Hb)%list_elem_of_fmap
      (c & -> & Hc)%list_elem_of_fmap.
    rewrite !Hcmp. by apply Htr.
Qed.
End order_transport.

(** ** Column classifier *)

Section classifier.
Context `{Engine} `{!ArraySort} `{!ArraySortLaws}.
Implicit Types (sample data : list DataRow) (header : string) (v : value)
  (vs : list value).

Lemma foldl_Set_add_elem vs acc x :
  x ∈ foldl Set_add acc vs ↔ x ∈ acc ∨ x ∈ vs.
Proof.
  revert acc. induction vs as [|v vs IH]; intros acc; simpl.
  { rewrite elem_of_nil. tauto. }
  rewrite IH, elem_of_cons. unfold Set_add. case_decide as Hin.
  - split; [tauto|]. intros [?|[->|?]]; auto.
  - rewrite elem_of_app, list_elem_of_singleton. tauto.
Qed.

Lemma foldl_Set_add_NoDup vs acc : NoDup acc → NoDup (foldl Set_add acc vs).
Proof.
  revert acc. induction vs as [|v vs IH]; intros acc Hnd; simpl; [done|].
  apply IH. unfold Set_add. case_decide as Hin; [done|].
  apply NoDup_app. split_and!; [done| |apply NoDup_singleton].
  intros x Hx ->%list_elem_of_singleton. done.
Qed.

(** [Array.from(new Set(values))] holds each value of [values] once. *)
Lemma Array_from_Set_elem vs x : x ∈ Array_from_Set vs ↔ x ∈ vs.
Proof.
  unfold Array_from_Set. rewrite foldl_Set_add_elem, elem_of_nil. tauto.
Qed.

Lemma Array_from_Set_NoDup vs : NoDup (Array_from_Set vs).
Proof. apply foldl_Set_add_NoDup, NoDup_nil_2. Qed.

Lemma Array_from_Set_perm vs vs' :
  (∀ x, x ∈ vs ↔ x ∈ vs') → Array_from_Set vs ≡ₚ Array_from_Set vs'.
Proof.
  intros Hsame. apply NoDup_Permutation; [apply Array_from_Set_NoDup..|].
  intros x. by rewrite !Array_from_Set_elem.
Qed.

Lemma present_Some (cell : option value) v :
  present cell = Some v ↔ cell = Some v ∧ v ≠ VNull.
Proof.
  destruct cell as [[]|]; simpl; split; try done;
    try (intros [= <-]; done); try (by intros [[= <-] ?]); by intros [? ?].
Qed.

(** The sampled values of a column are the non-null cells, row by row. *)
Lemma column_values_elem sample header v :
  v ∈ column_values sample header ↔
  v ≠ VNull ∧ ∃ row, row ∈ sample ∧ row_get row header = Some v.
Proof.
  unfold column_values. rewrite list_elem_of_omap.
  setoid_rewrite present_Some. split.
  - intros (row & Hrow & Hv & Hne). eauto.
  - intros (Hne & row & Hrow & Hv). eauto.
Qed.

Lemma column_values_head sample header :
  head (column_values sample header) = first_non_null sample header.
Proof.
  unfold column_values. induction sample as [|row sample IH]; [done|]. simpl.
  destruct (row_get row header) as [v|]; simpl; [|done].
  destruct (decide (v = VNull)) as [->|Hv]; [done|]. by destruct v.
Qed.


Lemma isDate_of_date_like v : isDate_of v = true ↔ date_like v.
Proof.
  unfold date_like. split.
  - destruct v as [s| | |]; simpl; try done.
    case_bool_decide as Hlen; [|done].
    destruct (Date_parse s) as [t|] eqn:Hp; [|done].
    intros Hnan. exists s. by rewrite Hp.
  - intros (s & -> & Hlen & [t Hp] & Hnan). simpl.
    by rewrite bool_decide_true, Hp.
Qed.

Lemma classify_column_name sample header d :
  classify_column sample header = Some d → name d = header.
Proof.
  unfold classify_column. destruct (column_values sample header) as [|v vs]; [done|].
  destruct (isDate_of v); [by intros [= <-]|].
  case_bool_decide; [by intros [= <-]|done].
Qed.

Lemma classify_column_date sample header :
  (∃ d, classify_column sample header = Some d ∧ type d = date) ↔
  ∃ v, first_non_null sample header = Some v ∧ isDate_of v = true.
Proof.
  rewrite <-column_values_head. unfold classify_column.
  destruct (column_values sample header) as [|v vs]; simpl.
  { split; [by intros (? & ? & _)|by intros (? & ? & _)]. }
  destruct (isDate_of v) eqn:Hd.
  - split; [by exists v|]. intros _. by eexists.
  - split.
    + case_bool_decide; [|by intros (? & ? & _)]. by intros (d & [= <-] & ?).
    + intros (v' & [= <-] & ?). congruence.
Qed.

(** What a group of descriptors is made of. *)
Lemma detectColumns_elem row0 rest d :
  d ∈ default [] (detectColumns (row0 :: rest)) ↔
  name d ∈ Object_keys row0
  ∧ classify_column (take ROW_LIMIT (row0 :: rest)) (name d) = Some d.
Proof.
  simpl. rewrite list_elem_of_omap. split.
  - intros (h & Hh & Hc). by rewrite (classify_column_name _ _ _ Hc).
  - intros [? ?]. eauto.
Qed.

Lemma detectColumns_names row0 rest :
  name <$> default [] (detectColumns (row0 :: rest))
  = filter (λ h, is_Some (classify_column (take ROW_LIMIT (row0 :: rest)) h))
      (Object_keys row0).
Proof.
  change (default [] (detectColumns (row0 :: rest)))
    with (omap (classify_column (take ROW_LIMIT (row0 :: rest))) (Object_keys row0)).
  generalize (take ROW_LIMIT (row0 :: rest)). intros sample.
  induction (Object_keys row0) as [|h hs IH]; [done|].
  cbn [omap list_omap]. rewrite filter_cons.
  destruct (classify_column sample h) as [d|] eqn:Hd.
  - rewrite decide_True by (by eexists). rewrite fmap_cons.
    rewrite (classify_column_name _ _ _ Hd). f_equal. apply IH.
  - rewrite decide_False; [apply IH|]. by intros [? ?].
Qed.

Lemma compare_options_numbers (a b : number) :
  compare_options (VNumber a) (VNumber b) = Number_sub_sign a b.
Proof. done. Qed.

Lemma compare_options_strings (a b : value) :
  (∀ x y, ¬ (a = VNumber x ∧ b = VNumber y)) →
  compare_options a b = localeCompare (String_of a) (String_of b).
Proof.
  intros Hnum. destruct a as [| x | |], b as [| y | |]; try done.
  by destruct (Hnum x y).
Qed.

(** A column of numbers is ordered by the comparator as soon as numeric
    comparison orders these numbers (no NaN among them). *)
Lemma strict_total_order_on_numbers (ns : list number) :
  strict_total_order_on Number_sub_sign ns →
  strict_total_order_on compare_options (VNumber <$> ns).
Proof.
  by apply strict_total_order_on_fmap.
Qed.

(** A column of strings is ordered by the comparator as soon as the
    collation orders these strings. *)
Lemma strict_total_order_on_strings (ss : list string) :
  strict_total_order_on localeCompare ss →
  strict_total_order_on compare_options (VString <$> ss).
Proof.
  by apply strict_total_order_on_fmap.
Qed.

(** The distinct values counted as the specification counts them are the
    members of [uniqueValues]. *)
Lemma distinct_count_unique sample header :
  distinct_count sample header = length (Array_from_Set (column_values sample header)).
Proof.
  unfold distinct_count. apply Permutation_length, NoDup_Permutation.
  - apply NoDup_remove_dups.
  - apply Array_from_Set_NoDup.
  - intros x. by rewrite elem_of_remove_dups, Array_from_Set_elem.
Qed.



Lemma emits_cons row0 rest d :
  emits (row0 :: rest) d ↔
  name d ∈ Object_keys row0
  ∧ classify_column (take ROW_LIMIT (row0 :: rest)) (name d) = Some d.
Proof.
  rewrite <-detectColumns_elem. unfold emits. simpl. split.
  - by intros (cols & [= <-] & Hd).
  - intros Hd. by eexists.
Qed.



(** C4, as the code has it.  For a key of the first row with at least one
    non-null sampled value that is not a date-range column: [uniqueValues]
    holds the distinct non-null sampled values; with at most 50 of them the
    classifier emits one descriptor for the column, a categorical one whose
    options are these values rendered as strings, in the order in which the
    sort of the engine leaves them under the comparator (numbers by
    difference, anything else by [localeCompare] of the string forms); with
    more than 50 it emits none.  The options always hold the same values as
    [uniqueValues]; when the comparator is a strict total order on them the
    options are ascending, and the descriptor is the same for every dataset
    with the same set of sampled values, in whatever order they appear. *)
Theorem categorical_classification row0 rest header v vs :
  let data := row0 :: rest in
  let sample := take ROW_LIMIT data in
  header ∈ Object_keys row0 →
  column_values sample header = v :: vs →
  ¬ date_like v →
  let uniqueValues := Array_from_Set (v :: vs) in
  let sorted := Array_sort compare_options uniqueValues in
  let descriptor :=
    {| name := header; type := categorical; options := Some (String_of <$> sorted) |} in
  NoDup uniqueValues
  ∧ (∀ x, x ∈ uniqueValues ↔
       x ≠ VNull ∧ ∃ row, row ∈ sample ∧ row_get row header = Some x)
  ∧ length uniqueValues = distinct_count sample header
  ∧ (length uniqueValues ≤ 50 →
       emits data descriptor
       ∧ ∀ d, emits data d → name d = header → d = descriptor)
  ∧ (50 < length uniqueValues → ∀ d, emits data d → name d ≠ header)
  ∧ sorted ≡ₚ uniqueValues
  ∧ (∀ a b : number, compare_options (VNumber a) (VNumber b) = Number_sub_sign a b)
  ∧ (∀ a b : value, (∀ x y, ¬ (a = VNumber x ∧ b = VNumber y)) →
       compare_options a b = localeCompare (String_of a) (String_of b))
  ∧ (strict_total_order_on compare_options uniqueValues →
       StronglySorted (not_after compare_options) sorted
       ∧ ∀ row0' rest' v' vs',
           header ∈ Object_keys row0' →
           column_values (take ROW_LIMIT (row0' :: rest')) header = v' :: vs' →
           ¬ date_like v' →
           (∀ x, x ∈ v' :: vs' ↔ x ∈ v :: vs) →
           ∀ d, name d = header → emits (row0' :: rest') d ↔ emits data d).
Proof.
  intros data sample Hkey Hvals Hnd uniqueValues sorted descriptor.
  assert (∀ r0 rs w ws,
            column_values (take ROW_LIMIT (r0 :: rs)) header = w :: ws → ¬ date_like w →
            classify_column (take ROW_LIMIT (r0 :: rs)) header =
              if bool_decide (length (Array_from_Set (w :: ws)) ≤ 50)
              then Some {| name := header; type := categorical;
                           options := Some (String_of <$> Array_sort compare_options
                                              (Array_from_Set (w :: ws))) |}
              else None) as Hbody.
  { intros r0 rs w ws Hw Hndw.
    rewrite <-isDate_of_date_like in Hndw. apply not_true_is_false in Hndw.
    unfold classify_column. by rewrite Hw, Hndw. }
  assert (∀ r0 rs d, name d = header →
            emits (r0 :: rs) d ↔
            header ∈ Object_keys r0
            ∧ classify_column (take ROW_LIMIT (r0 :: rs)) header = Some d) as Hemits.
  { intros r0 rs d Hname. by rewrite emits_cons, Hname. }
  pose proof (Hbody row0 rest v vs Hvals Hnd) as Hc. fold data sample uniqueValues sorted in Hc.
  split_and!.
  - apply Array_from_Set_NoDup.
  - intros x. unfold uniqueValues.
    by rewrite Array_from_Set_elem, <-Hvals, column_values_elem.
  - by rewrite distinct_count_unique, Hvals.
  - intros Hle. rewrite bool_decide_true in Hc by done. split.
    + by apply Hemits.
    + intros d Hd Hname. apply (Hemits row0 rest d Hname) in Hd as [_ Hd].
      fold data sample in Hd. rewrite Hc in Hd. by injection Hd.
  - intros Hgt d Hd Hname. apply (Hemits row0 rest d Hname) in Hd as [_ Hd].
    fold data sample in Hd. rewrite Hc, bool_decide_false in Hd by lia. done.
  - apply Array_sort_perm.
  - apply compare_options_numbers.
  - apply compare_options_strings.
  - intros Hord. split.
    { by apply (Array_sort_sorted _ uniqueValues). }
    intros row0' rest' v' vs' Hkey' Hvals' Hnd' Hsame d Hname.
    pose proof (Hemits row0 rest d Hname) as He. fold data sample in He.
    rewrite He, (Hemits row0' rest' d Hname).
    rewrite (Hbody row0' rest' v' vs' Hvals' Hnd'), Hc.
    assert (Array_from_Set (v' :: vs') ≡ₚ uniqueValues) as Hperm
      by (by apply Array_from_Set_perm).
    rewrite (Permutation_length Hperm).
    rewrite (Array_sort_perm_eq compare_options uniqueValues Hord
               (Array_from_Set (v' :: vs')) uniqueValues);
      [tauto| |done].
    intros y. by rewrite Hperm.
Qed.


End classifier.

(** ** File parsing *)

Section parsing.
Context `{Decoders}.
Implicit Types (file : File) (ds : DataSet).

Lemma parseCSV_resolved file ds :
  (parseCSV file).2 = inr ds → data ds ≠ [] ∧ rowCount ds = length (data ds).
Proof.
  unfold parseCSV. destruct (Papa_parse file) as [e|rows errors fields]; [done|].
  destruct rows as [|row0 rows]; [done|]. by intros [= <-].
Qed.

Lemma parseExcel_resolved file ds :
  (parseExcel file).2 = inr ds → data ds ≠ [] ∧ rowCount ds = length (data ds).
Proof.
  unfold parseExcel. destruct (XLSX_read file) as [e|e|rows]; [done..|].
  destruct rows as [|row0 rows]; [done|]. by intros [= <-].
Qed.

(** The three outcomes of the dispatch on the extension. *)
Lemma parseFile_dispatch file :
  (extension_of file = Some "csv" ∧ parseFile file = parseCSV file)
  ∨ ((extension_of file = Some "xls" ∨ extension_of file = Some "xlsx")
     ∧ parseFile file = parseExcel file)
  ∨ ((extension_of file ∉ [Some "csv"; Some "xls"; Some "xlsx"])
     ∧ parseFile file =
         ([], inl (MkError "Unsupported file format. Please upload CSV or Excel files."))).
Proof.
  unfold parseFile. case_decide as Hcsv; [by left|]. right.
  case_bool_decide as Hxls.
  - left. split; [|done].
    rewrite !elem_of_cons, elem_of_nil in Hxls.
    destruct (extension_of file) as [ext|]; simpl in Hxls.
    + destruct Hxls as [->|[->|[]]]; [by left|by right].
    + by destruct Hxls as [?|[?|[]]].
  - right. split; [|done]. intros Hin. apply Hxls.
    rewrite !elem_of_cons, elem_of_nil in Hin. rewrite !elem_of_cons.
    destruct Hin as [?|[->|[->|[]]]]; [done|by left|right; by left].
Qed.

(** C9.  A file whose extension is none of csv, xls, xlsx is rejected with
    the unsupported-format error and no decoder is started; a file that
    decodes to no rows is rejected with a no-data error, so a resolved
    dataset always has rows. *)
Theorem parseFile_rejections file :
  (extension_of file ∉ [Some "csv"; Some "xls"; Some "xlsx"] →
     parseFile file =
       ([], inl (MkError "Unsupported file format. Please upload CSV or Excel files.")))
  ∧ (∀ errors fields,
       extension_of file = Some "csv" →
       Papa_parse file = PapaComplete [] errors fields →
       (parseFile file).2 = inl (MkError "No data found in CSV file"))
  ∧ (extension_of file = Some "xls" ∨ extension_of file = Some "xlsx" →
       XLSX_read file = ExcelRows [] →
       (parseFile file).2 = inl (MkError "No data found in Excel file"))
  ∧ (∀ ds, (parseFile file).2 = inr ds →
       data ds ≠ [] ∧ rowCount ds = length (data ds) ∧ 0 < rowCount ds).
Proof.
  destruct (parseFile_dispatch file) as [[Hext ->]|[[Hext ->]|[Hext ->]]].
  - split_and!.
    + intros Hno. destruct Hno. rewrite Hext. left.
    + intros errors fields _ Hp. unfold parseCSV. rewrite Hp.
      by destruct (bool_decide _).
    + intros [Hx|Hx]; by rewrite Hext in Hx.
    + intros ds Hds. apply parseCSV_resolved in Hds as [Hne Hcount].
      split_and!; [done..|]. rewrite Hcount. destruct (data ds); [done|].
      simpl. lia.
  - split_and!.
    + intros Hno. destruct Hno. destruct Hext as [-> | ->]; [right; left|do 2 right; left].
    + intros errors fields Hcsv. destruct Hext as [Hx|Hx]; by rewrite Hx in Hcsv.
    + intros _ Hx. unfold parseExcel. by rewrite Hx.
    + intros ds Hds. apply parseExcel_resolved in Hds as [Hne Hcount].
      split_and!; [done..|]. rewrite Hcount. destruct (data ds); [done|].
      simpl. lia.
  - split_and!.
    + done.
    + intros errors fields Hcsv. destruct Hext. rewrite Hcsv. left.
    + intros [Hx|Hx]; destruct Hext; rewrite Hx; [right; left|do 2 right; left].
    + done.
Qed.

End parsing.

(** ** The properties at work on the example data *)

Module Scenarios.
Import Reference Examples.

(** Scenario A: three regions over ten rows give one categorical
    descriptor with the three options in alphabetical order. *)
Example scenario_A :
  detectColumns region_rows =
    Some [{| name := "Region"; type := categorical;
             options := Some ["east"; "north"; "west"] |}].
Proof. repeat split; reflexivity. Qed.

(** Scenario B: the date column is a date-range column and the first half
    of 2023 keeps the three rows inside it, bounds included. *)
Example scenario_B :
  detectColumns signup_rows =
    Some [{| name := "Signup_Date"; type := date; options := None |}]
  ∧ evaluate signup_rows first_half_2023 =
      row_of "Signup_Date" <$>
        [VString "2023-01-01"; VString "2023-03-15"; VString "2023-06-30"].
Proof. repeat split; reflexivity. Qed.

(** Scenario D: 500 distinct identifiers, 200 of them sampled, give no
    descriptor. *)
Example scenario_D : detectColumns userid_rows = Some [].
Proof. repeat split; reflexivity. Qed.

(** The comparison of a category is exact: [east] is not [East]. *)
Example category_is_case_sensitive :
  evaluate case_rows east_only =
    [row_of "Region" (VString "East"); row_of "Region" (VString "East")].
Proof. repeat split; reflexivity. Qed.

(** A file named after an extension, without a dot, is read as that
    extension. *)
Example extension_without_dot :
  extension_of {| file_name := "csv"; file_content := EmptyString |} = Some "csv"
  ∧ extension_of csv_file = Some "csv".
Proof. repeat split; reflexivity. Qed.

Lemma evaluate_retains_iff_all_constraints_witness :
  east_only !! "Region" = Some (FCategory "East")
  ∧ row_get (row_of "Region" VNull) "Region" = Some VNull
  ∧ row_of "Region" VNull ∉ evaluate case_rows east_only.
Proof.
  split_and!; [reflexivity..|].
  apply (proj2 (proj2 (proj2 (evaluate_retains_iff_all_constraints case_rows east_only)))
           _ "Region" (FCategory "East")); [reflexivity|right; reflexivity].
Defined.

Lemma date_range_constraint_witness :
  Date_parse "2023-03-15" = Some 1678838400000%Z
  ∧ Date_parse "2023-01-01" = Some 1672531200000%Z
  ∧ Date_parse "2023-06-30" = Some 1688083200000%Z
  ∧ entry_passes (row_of "Signup_Date" (VString "2023-03-15"))
      ("Signup_Date", FDateRange "2023-01-01" "2023-06-30").
Proof.
  split_and!; [reflexivity..|].
  apply (proj1 (proj2 (proj2 (date_range_constraint
           (row_of "Signup_Date" (VString "2023-03-15")) "Signup_Date"
           "2023-01-01" "2023-06-30")))
           (VString "2023-03-15") 1678838400000%Z 1672531200000%Z 1688083200000%Z);
    [reflexivity|discriminate|reflexivity|reflexivity|reflexivity
    |discriminate|discriminate|lia].
Defined.



Lemma categorical_classification_witness :
  "Units" ∈ Object_keys (row_of "Units" (VNumber 10%Z))
  ∧ column_values (take ROW_LIMIT units_rows) "Units"
    = [VNumber 10%Z; VNumber 2%Z; VNumber 33%Z; VNumber 2%Z]
  ∧ ¬ date_like (VNumber 10%Z)
  ∧ strict_total_order_on compare_options [VNumber 10%Z; VNumber 2%Z; VNumber 33%Z]
  ∧ emits units_rows
      {| name := "Units"; type := categorical; options := Some ["2"; "10"; "33"] |}
  ∧ (∀ d, name d = "Units" → emits units_rows_reordered d ↔ emits units_rows d).
Proof.
  assert ("Units" ∈ Object_keys (row_of "Units" (VNumber 10%Z))) as Hkey by left.
  assert (¬ date_like (VNumber 10%Z)) as Hnd by (by intros (s & [=] & _)).
  assert (strict_total_order_on compare_options
            [VNumber 10%Z; VNumber 2%Z; VNumber 33%Z]) as Hord
    by (apply (bool_decide_unpack _); vm_compute; exact I).
  assert (column_values
            (take ROW_LIMIT
               (row_of "Units" (VNumber 10%Z)
                :: (row_of "Units" <$> [VNumber 2%Z; VNumber 33%Z; VNumber 2%Z])))
            "Units"
          = [VNumber 10%Z; VNumber 2%Z; VNumber 33%Z; VNumber 2%Z]) as Hvals
    by reflexivity.
  destruct (categorical_classification _ _ "Units" _ _ Hkey Hvals Hnd)
    as (_ & _ & _ & Hcat & _ & _ & _ & _ & Hindep).
  split_and!; [done..| |].
  - refine (proj1 (Hcat _)). apply (bool_decide_unpack _). vm_compute. exact I.
  - assert ("Units" ∈ Object_keys (row_of "Units" (VNumber 33%Z))) as Hkey' by left.
    assert (column_values
              (take ROW_LIMIT
                 (row_of "Units" (VNumber 33%Z)
                  :: (row_of "Units" <$> [VNumber 2%Z; VNumber 10%Z])))
              "Units"
            = [VNumber 33%Z; VNumber 2%Z; VNumber 10%Z]) as Hvals'
      by reflexivity.
    apply (proj2 (Hindep Hord) _ _ _ _ Hkey' Hvals').
    + by intros (s & [=] & _).
    + intros x. rewrite !elem_of_cons, !elem_of_nil. tauto.
Defined.

(** C4 as stated fails three times.  A column with no non-null sampled
    value has 0 distinct values, is not a date-range column, and yet gets no
    categorical descriptor.  A column holding the numbers 2 and 10 and the
    string 1a gets different options for two orders of appearance of the
    same three values, on this engine as on every engine whose sort leaves
    an array alone in which no element compares greater than the next.  And
    a column that the first row has no cell for has one distinct value and
    no descriptor. *)
Lemma categorical_claim_counterexample :
  (length (Array_from_Set (column_values blank_column_rows "Notes")) ≤ 50
   ∧ ¬ classified_as blank_column_rows "Notes" date
   ∧ "Notes" ∈ Object_keys [("Notes", VNull); ("Name", VString "a")]
   ∧ classify_column (take ROW_LIMIT blank_column_rows) "Notes" = None
   ∧ ¬ classified_as blank_column_rows "Notes" categorical)
  ∧ (column_values mixed_rows "Size" ≡ₚ column_values mixed_rows_reordered "Size"
     ∧ detectColumns mixed_rows =
         Some [{| name := "Size"; type := categorical;
                  options := Some ["2"; "10"; "1a"] |}]
     ∧ detectColumns mixed_rows_reordered =
         Some [{| name := "Size"; type := categorical;
                  options := Some ["10"; "1a"; "2"] |}])
  ∧ (column_values (take ROW_LIMIT short_first_rows) "Notes" = [VString "hello"]
     ∧ ¬ classified_as short_first_rows "Notes" date
     ∧ ¬ classified_as short_first_rows "Notes" categorical).
Proof.
  assert (∀ ty, ¬ classified_as blank_column_rows "Notes" ty) as Hnone.
  { intros ty (cols & d & Hcols & Hd & Hname & _).
    assert (cols = [{| name := "Name"; type := categorical;
                       options := Some ["a"; "b"] |}]) as ->
      by (symmetry; by injection Hcols).
    apply list_elem_of_singleton in Hd as ->. discriminate Hname. }
  assert (∀ ty, ¬ classified_as short_first_rows "Notes" ty) as Hshort.
  { intros ty (cols & d & Hcols & Hd & Hname & _).
    assert (cols = [{| name := "Name"; type := categorical;
                       options := Some ["alice"; "bob"] |}]) as ->
      by (symmetry; by injection Hcols).
    apply list_elem_of_singleton in Hd as ->. discriminate Hname. }
  split_and!; try done; try reflexivity.
  - apply (bool_decide_unpack _). vm_compute. exact I.
  - apply (bool_decide_unpack _). vm_compute. exact I.
  - apply (Permutation_cons_append [@VNumber engine 10%Z; VString "1a"]).
Qed.

Lemma evaluate_order_preserving_subset_witness :
  NoDup signup_rows ∧ NoDup (evaluate signup_rows first_half_2023).
Proof.
  assert (NoDup signup_rows) as Hnd
    by (apply (bool_decide_unpack _); vm_compute; exact I).
  split; [done|].
  by apply (proj1 (proj2 (proj2
              (evaluate_order_preserving_subset signup_rows first_half_2023)))).
Defined.



Lemma clearing_removes_constraint_witness :
  (∅ : gmap string FilterValue) !! "Region" = None
  ∧ handleCategoryChange "Region" EmptyString (handleCategoryChange "Region" "East" ∅) = ∅
  ∧ evaluate case_rows
      (handleCategoryChange "Region" EmptyString (handleCategoryChange "Region" "East" ∅))
    = case_rows.
Proof.
  destruct (clearing_removes_constraint (H := engine) ∅ "Region")
    as (_ & _ & _ & _ & Hback & _ & Hfull).
  split_and!; [reflexivity| |apply Hfull].
  apply Hback. reflexivity.
Defined.

Lemma parseFile_rejections_witness :
  (extension_of text_file ∉ [Some "csv"; Some "xls"; Some "xlsx"])
  ∧ parseFile (H0 := constant_decoders blank_column_rows) text_file =
      ([], inl (MkError "Unsupported file format. Please upload CSV or Excel files."))
  ∧ extension_of csv_file = Some "csv"
  ∧ (parseFile (H0 := constant_decoders []) csv_file).2 =
      inl (MkError "No data found in CSV file")
  ∧ extension_of xlsx_file = Some "xlsx"
  ∧ (parseFile (H0 := constant_decoders []) xlsx_file).2 =
      inl (MkError "No data found in Excel file").
Proof.
  assert (extension_of text_file ∉ [Some "csv"; Some "xls"; Some "xlsx"]) as Hext
    by (apply (bool_decide_unpack _); vm_compute; exact I).
  split_and!; [done| |reflexivity| |reflexivity|].
  - by apply (proj1 (@parseFile_rejections engine
                       (constant_decoders blank_column_rows) text_file)).
  - apply (proj1 (proj2 (@parseFile_rejections engine
                           (constant_decoders []) csv_file)) [] None);
      reflexivity.
  - apply (proj1 (proj2 (proj2 (@parseFile_rejections engine
                                  (constant_decoders []) xlsx_file))));
      [right|]; reflexivity.
Defined.

Lemma updates_leave_other_columns_witness :
  "Signup_Date" ≠ "Region"
  ∧ handleCategoryChange "Region" "East" first_half_2023 !! "Signup_Date"
    = first_half_2023 !! "Signup_Date"
  ∧ handleDateChange "Region" field_end "2023-06-30" first_half_2023 !! "Signup_Date"
    = first_half_2023 !! "Signup_Date".
Proof.
  assert ("Signup_Date" ≠ "Region") as Hne by done.
  split; [done|].
  exact (updates_leave_other_columns first_half_2023 "Region" "Signup_Date"
           "East" field_end "2023-06-30" Hne).
Defined.

End Scenarios.

(** * Further properties *)

(** ** The evaluator as an operation on datasets *)

Section evaluator_algebra.
Context `{Engine}.
Implicit Types (D : list DataRow) (M : gmap string FilterValue) (row : DataRow).

Lemma row_passes_union M1 M2 row :
  (∀ key fv1 fv2, M1 !! key = Some fv1 → M2 !! key = Some fv2 → fv1 = fv2) →
  row_passes (M1 ∪ M2) row ↔ row_passes M1 row ∧ row_passes M2 row.
Proof.
  intros Hagree. rewrite !row_passes_lookup. split.
  - intros Hall. split; intros key fv Hk.
    + apply Hall. by apply lookup_union_Some_l.
    + apply Hall. apply lookup_union_Some_raw.
      destruct (M1 !! key) as [fv1|] eqn:H1; [|by right].
      left. by rewrite (Hagree key fv1 fv H1 Hk).
  - intros [Hall1 Hall2] key fv [Hk|[_ Hk]]%lookup_union_Some_raw; eauto.
Qed.

Lemma row_passes_subseteq M M' row : M ⊆ M' → row_passes M' row → row_passes M row.
Proof.
  rewrite !row_passes_lookup. intros Hsub Hall key fv Hk.
  apply Hall. by eapply lookup_weaken.
Qed.

(** X1.  Filtering an already filtered dataset with the same constraints changes
    nothing, and two sets of constraints can be applied in either order. *)
Theorem evaluate_idempotent_commutes D M M' :
  evaluate (evaluate D M) M = evaluate D M
  ∧ evaluate (evaluate D M) M' = evaluate (evaluate D M') M.
Proof.
  rewrite !evaluate_filter, !list_filter_filter. split.
  - apply list_filter_iff. tauto.
  - apply list_filter_iff. tauto.
Qed.

(** X2.  Filtering in two steps is filtering once with both sets of constraints,
    when the two sets do not disagree on a column. *)
Theorem evaluate_in_two_steps D M1 M2 :
  (∀ key fv1 fv2, M1 !! key = Some fv1 → M2 !! key = Some fv2 → fv1 = fv2) →
  evaluate (evaluate D M1) M2 = evaluate D (M1 ∪ M2).
Proof.
  intros Hagree. rewrite !evaluate_filter, list_filter_filter.
  apply list_filter_iff. intros row. rewrite (row_passes_union _ _ _ Hagree). tauto.
Qed.

(** X3.  More constraints never bring rows back: the output under a larger
    mapping is a subsequence of the output under a smaller one.  In
    particular a selection on a column that had no constraint can only
    remove rows. *)
Theorem evaluate_antitone D M M' :
  M ⊆ M' →
  evaluate D M' `sublist_of` evaluate D M
  ∧ length (evaluate D M') ≤ length (evaluate D M)
  ∧ ∀ column value, M !! column = None →
      evaluate D (handleCategoryChange column value M) `sublist_of` evaluate D M.
Proof.
  assert (∀ M1 M2, M1 ⊆ M2 → evaluate D M2 `sublist_of` evaluate D M1) as Hanti.
  { intros M1 M2 Hsub.
    assert (evaluate D M2 = evaluate (evaluate D M1) M2) as ->.
    { rewrite !evaluate_filter, list_filter_filter. apply list_filter_iff.
      intros row. split; [|tauto]. intros Hrow. split; [done|].
      by apply (row_passes_subseteq M1 M2). }
    rewrite (evaluate_filter (evaluate D M1)). apply sublist_filter. }
  intros Hsub. split_and!.
  - by apply Hanti.
  - by apply sublist_length, Hanti.
  - intros column value Hnone. apply Hanti. unfold handleCategoryChange.
    case_decide; [by rewrite delete_id|by apply insert_subseteq].
Qed.

(** X4.  Whether a row is kept does not depend on the other rows: the evaluator
    works through a concatenation piece by piece, and keeps nothing of an
    empty dataset. *)
Theorem evaluate_app D1 D2 M :
  evaluate (D1 ++ D2) M = evaluate D1 M ++ evaluate D2 M ∧ evaluate [] M = [].
Proof. rewrite !evaluate_filter. split; [apply filter_app|done]. Qed.

(** X5.  With a constraint set, every run of the effect hands on a newly
    allocated array: two runs on the same dataset give two different
    references, both different from the dataset's, with the same rows, and
    the dataset itself is left as it was. *)
Theorem applyFilters_allocates (h : heap) (a : ref) D M :
  h !! a = Some D → M ≠ ∅ →
  ∃ h1 a1 h2 a2,
    applyFilters h a M = Some (h1, a1)
    ∧ applyFilters h1 a M = Some (h2, a2)
    ∧ a1 ≠ a ∧ a2 ≠ a ∧ a1 ≠ a2
    ∧ h2 !! a1 = Some (evaluate D M) ∧ h2 !! a2 = Some (evaluate D M)
    ∧ h2 !! a = Some D.
Proof.
  intros Ha HM.
  destruct (applyFilters_fresh h a D M Ha HM) as (h1 & Hrun1 & Hne1).
  assert (h1 !! a = Some D) as Ha1.
  { unfold applyFilters, Array_filter in Hrun1. case_decide; [by simplify_eq|].
    rewrite Ha in Hrun1. simpl in Hrun1. injection Hrun1 as <-.
    by apply lookup_app_l_Some. }
  assert (length h1 = S (length h)) as Hlen.
  { unfold applyFilters, Array_filter in Hrun1. case_decide; [by simplify_eq|].
    rewrite Ha in Hrun1. simpl in Hrun1. injection Hrun1 as <-.
    rewrite length_app. simpl. lia. }
  destruct (applyFilters_fresh h1 a D M Ha1 HM) as (h2 & Hrun2 & Hne2).
  exists h1, (length h), h2, (length h1). split_and!; try done; try lia.
  - pose proof (applyFilters_contents h a D M h1 (length h) Ha Hrun1) as H1.
    unfold applyFilters, Array_filter in Hrun2. case_decide; [by simplify_eq|].
    rewrite Ha1 in Hrun2. simpl in Hrun2. injection Hrun2 as <-.
    by apply lookup_app_l_Some.
  - by apply (applyFilters_contents h1 a D M h2 (length h1)).
  - unfold applyFilters, Array_filter in Hrun2. case_decide; [by simplify_eq|].
    rewrite Ha1 in Hrun2. simpl in Hrun2. injection Hrun2 as <-.
    by apply lookup_app_l_Some.
Qed.

End evaluator_algebra.

(** ** What the classifier offers and what the evaluator finds *)

Section offered_options.
Context `{Engine} `{!ArraySort} `{!ArraySortLaws}.
Implicit Types (data sample : list DataRow) (d : ColumnMeta) (row : DataRow).

Lemma classify_column_options sample header d opts :
  classify_column sample header = Some d → options d = Some opts →
  type d = categorical
  ∧ opts = String_of <$> Array_sort compare_options
                           (Array_from_Set (column_values sample header))
  ∧ length (Array_from_Set (column_values sample header)) ≤ 50.
Proof.
  unfold classify_column.
  destruct (column_values sample header) as [|v vs]; [done|].
  destruct (isDate_of v); [by intros [= <-]|].
  case_bool_decide as Hle; [|done]. intros [= <-] [= <-]. done.
Qed.

Lemma detectColumns_Some_elem data cols d :
  detectColumns data = Some cols → d ∈ cols →
  classify_column (take ROW_LIMIT data) (name d) = Some d.
Proof.
  destruct data as [|row0 rest]; [done|]. intros Hcols Hd.
  assert (d ∈ default [] (detectColumns (row0 :: rest))) as Hin by (by rewrite Hcols).
  by apply detectColumns_elem in Hin as [_ ?].
Qed.

Lemma selecting_own_value_keeps_row data row column v :
  row ∈ data → row_get row column = Some v → v ≠ VNull →
  row ∈ evaluate data {[ column := FCategory (String_of v) ]}.
Proof.
  intros Hrow Hv Hne. rewrite evaluate_filter, list_elem_of_filter. split; [|done].
  apply row_passes_lookup. intros key fv [<- <-]%lookup_singleton_Some.
  apply entry_passes_satisfies. by exists v.
Qed.

(** X6.  Every option offered for a column finds something: the descriptor is
    categorical, has at most 50 options, and selecting any one of them keeps
    at least one row, a row of the sample. *)
Theorem offered_option_matches_a_row data cols d opts o :
  detectColumns data = Some cols → d ∈ cols →
  options d = Some opts → o ∈ opts →
  type d = categorical
  ∧ length opts ≤ 50
  ∧ ∃ row, row ∈ take ROW_LIMIT data
           ∧ row ∈ evaluate data {[ name d := FCategory o ]}.
Proof.
  intros Hcols Hd Hopts Ho.
  pose proof (detectColumns_Some_elem _ _ _ Hcols Hd) as Hc.
  destruct (classify_column_options _ _ _ _ Hc Hopts) as (Hty & -> & Hlen).
  split_and!; [done| |].
  - by rewrite length_fmap, (Permutation_length (Array_sort_perm _ _)).
  - apply list_elem_of_fmap in Ho as (v & -> & Hv).
    rewrite Array_sort_perm, Array_from_Set_elem in Hv.
    apply column_values_elem in Hv as (Hne & row & Hrow & Hget).
    exists row. split; [done|].
    apply selecting_own_value_keeps_row; [|done..].
    eapply elem_of_sublist; [done|]. apply sublist_take.
Qed.

(** X7.  Every sampled row can be reached through the filter of any column with a
    dropdown in which it has a value: the string form of that value is among
    the options, and selecting it keeps the row. *)
Theorem sampled_row_is_reachable data cols d opts row v :
  detectColumns data = Some cols → d ∈ cols → options d = Some opts →
  row ∈ take ROW_LIMIT data → row_get row (name d) = Some v → v ≠ VNull →
  String_of v ∈ opts
  ∧ row ∈ evaluate data {[ name d := FCategory (String_of v) ]}.
Proof.
  intros Hcols Hd Hopts Hrow Hget Hne.
  pose proof (detectColumns_Some_elem _ _ _ Hcols Hd) as Hc.
  destruct (classify_column_options _ _ _ _ Hc Hopts) as (_ & -> & _).
  split.
  - apply list_elem_of_fmap. exists v. split; [done|].
    rewrite Array_sort_perm, Array_from_Set_elem.
    apply column_values_elem. eauto.
  - apply selecting_own_value_keeps_row; [|done..].
    eapply elem_of_sublist; [done|]. apply sublist_take.
Qed.

End offered_options.

(** ** The constraint handlers as operations on the mapping *)

Section handler_algebra.
Context `{Engine}.
Implicit Types (M : gmap string FilterValue) (column value : string) (field : DateField).

Lemma handleCategoryChange_lookup M column value :
  handleCategoryChange column value M !! column
  = if decide (value = EmptyString) then None else Some (FCategory value).
Proof.
  unfold handleCategoryChange. case_decide.
  - apply lookup_delete_eq.
  - apply lookup_insert_eq.
Qed.

(** The range [handleDateChange] aims at, and what it stores. *)
Lemma handleDateChange_closed M column field value :
  let s := match field with
           | field_start => value
           | field_end => stored_bound M column field_start
           end in
  let e := match field with
           | field_start => stored_bound M column field_end
           | field_end => value
           end in
  handleDateChange column field value M
  = if decide (s = EmptyString ∧ e = EmptyString) then delete column M
    else <[column := FDateRange s e]> M.
Proof.
  unfold handleDateChange, stored_bound, truthy.
  destruct (M !! column) as [[sel|s0 e0]|], field; simpl;
    repeat case_bool_decide; simpl; case_decide; try done; by intuition.
Qed.

Lemma stored_bound_delete M column field :
  stored_bound (delete column M) column field = EmptyString.
Proof. unfold stored_bound. by rewrite lookup_delete_eq. Qed.

Lemma stored_bound_insert M column field s e :
  stored_bound (<[column := FDateRange s e]> M) column field
  = match field with field_start => s | field_end => e end.
Proof. unfold stored_bound. by rewrite lookup_insert_eq. Qed.

Lemma stored_bound_handleDateChange M column field value field' :
  stored_bound (handleDateChange column field value M) column field'
  = if decide (field = field') then value else stored_bound M column field'.
Proof.
  rewrite handleDateChange_closed. cbv zeta. case_decide as Hboth.
  - rewrite stored_bound_delete. destruct Hboth as [Hs He].
    destruct field, field'; simpl in *; by rewrite ?Hs, ?He.
  - rewrite stored_bound_insert. by destruct field, field'.
Qed.


(** X8.  On one column the last selection wins, whatever was selected before, so
    that selecting the same value twice is selecting it once. *)
Theorem category_last_selection_wins M column value1 value2 :
  handleCategoryChange column value2 (handleCategoryChange column value1 M)
  = handleCategoryChange column value2 M
  ∧ handleCategoryChange column value1 (handleCategoryChange column value1 M)
    = handleCategoryChange column value1 M.
Proof.
  assert (∀ v1 v2, handleCategoryChange column v2 (handleCategoryChange column v1 M)
                   = handleCategoryChange column v2 M) as Hlast.
  { intros v1 v2. unfold handleCategoryChange. repeat case_decide;
      by rewrite ?delete_delete_eq, ?delete_insert_eq, ?insert_delete_eq,
           ?insert_insert_eq. }
  split; apply Hlast.
Qed.

Lemma handleCategoryChange_lookup_ne M column value key :
  key ≠ column → handleCategoryChange column value M !! key = M !! key.
Proof.
  intros Hne. unfold handleCategoryChange.
  case_decide; [by rewrite lookup_delete_ne|by rewrite lookup_insert_ne].
Qed.

Lemma handleDateChange_lookup_ne M column field value key :
  key ≠ column → handleDateChange column field value M !! key = M !! key.
Proof.
  intros Hne. rewrite handleDateChange_closed. cbv zeta.
  case_decide; [by rewrite lookup_delete_ne|by rewrite lookup_insert_ne].
Qed.

(** What [handleDateChange] leaves at its own column depends on the mapping
    through the entry of that column only. *)
Lemma handleDateChange_lookup_eq M M' column field value :
  M !! column = M' !! column →
  handleDateChange column field value M !! column
  = handleDateChange column field value M' !! column.
Proof.
  intros Hsame. rewrite !handleDateChange_closed. cbv zeta.
  unfold stored_bound. rewrite Hsame.
  case_decide; by rewrite ?lookup_delete_eq, ?lookup_insert_eq.
Qed.

(** X9.  Updates of two different columns can be made in either order, for any
    pairing of the two handlers. *)
Theorem updates_of_distinct_columns_commute M column1 column2 value1 value2
    field1 field2 bound1 bound2 :
  column1 ≠ column2 →
  handleCategoryChange column1 value1 (handleCategoryChange column2 value2 M)
  = handleCategoryChange column2 value2 (handleCategoryChange column1 value1 M)
  ∧ handleDateChange column1 field1 bound1 (handleCategoryChange column2 value2 M)
    = handleCategoryChange column2 value2 (handleDateChange column1 field1 bound1 M)
  ∧ handleDateChange column1 field1 bound1 (handleDateChange column2 field2 bound2 M)
    = handleDateChange column2 field2 bound2 (handleDateChange column1 field1 bound1 M).
Proof.
  intros Hne. split_and!; apply map_eq; intros key.
  - destruct (decide (key = column1)) as [->|H1].
    + rewrite (handleCategoryChange_lookup_ne _ column2) by done.
      by rewrite !handleCategoryChange_lookup.
    + rewrite (handleCategoryChange_lookup_ne _ column1) by done.
      destruct (decide (key = column2)) as [->|H2].
      * by rewrite !handleCategoryChange_lookup.
      * by rewrite !handleCategoryChange_lookup_ne.
  - destruct (decide (key = column1)) as [->|H1].
    + rewrite (handleCategoryChange_lookup_ne _ column2) by done.
      apply handleDateChange_lookup_eq. by apply handleCategoryChange_lookup_ne.
    + rewrite (handleDateChange_lookup_ne _ column1) by done.
      destruct (decide (key = column2)) as [->|H2].
      * by rewrite !handleCategoryChange_lookup.
      * by rewrite !handleCategoryChange_lookup_ne, handleDateChange_lookup_ne.
  - destruct (decide (key = column1)) as [->|H1].
    + rewrite (handleDateChange_lookup_ne _ column2) by done.
      apply handleDateChange_lookup_eq. by apply handleDateChange_lookup_ne.
    + rewrite (handleDateChange_lookup_ne _ column1) by done.
      destruct (decide (key = column2)) as [->|H2].
      * apply handleDateChange_lookup_eq. symmetry.
        by apply handleDateChange_lookup_ne.
      * by rewrite !handleDateChange_lookup_ne.
Qed.

(** X10.  The two bounds of a date filter can be entered in either order: what is
    stored is the range of the two values entered, or nothing when both are
    empty, whatever the column held before. *)
Theorem date_bounds_in_either_order M column s e :
  let target :=
    if decide (s = EmptyString ∧ e = EmptyString) then delete column M
    else <[column := FDateRange s e]> M in
  handleDateChange column field_end e (handleDateChange column field_start s M) = target
  ∧ handleDateChange column field_start s (handleDateChange column field_end e M) = target.
Proof.
  cbv zeta. split.
  - rewrite (handleDateChange_closed (handleDateChange _ _ _ _)). cbv zeta.
    rewrite stored_bound_handleDateChange.
    rewrite (decide_True (P := field_start = field_start)) by done.
    rewrite (handleDateChange_closed M). cbv zeta.
    repeat case_decide;
      by rewrite ?delete_delete_eq, ?delete_insert_eq, ?insert_delete_eq,
           ?insert_insert_eq.
  - rewrite (handleDateChange_closed (handleDateChange _ _ _ _)). cbv zeta.
    rewrite stored_bound_handleDateChange.
    rewrite (decide_True (P := field_end = field_end)) by done.
    rewrite (handleDateChange_closed M). cbv zeta.
    repeat case_decide;
      by rewrite ?delete_delete_eq, ?delete_insert_eq, ?insert_delete_eq,
           ?insert_insert_eq.
Qed.


Lemma foldr_clear_lookup M (columns : list string) (key : string) :
  foldr (λ c acc, handleCategoryChange c EmptyString acc) M columns !! key
  = if decide (key ∈ columns) then None else M !! key.
Proof.
  induction columns as [|c columns IH]; cbn [foldr].
  { destruct (decide (key ∈ [])) as [Hin|]; [by apply elem_of_nil in Hin|done]. }
  rewrite handleCategoryChange_clear.
  destruct (decide (c = key)) as [->|Hne].
  - rewrite lookup_delete_eq, decide_True; [done|]. left.
  - rewrite lookup_delete_ne, IH by done.
    destruct (decide (key ∈ columns)) as [Hin|Hin].
    + rewrite decide_True; [done|]. by right.
    + rewrite decide_False; [done|]. intros [?|?]%elem_of_cons; congruence.
Qed.

(** X12.  The Clear button does what clearing every constrained column one by one
    does, and brings the output back to the full dataset. *)
Theorem clearAll_clears_each_column M (D : list DataRow) :
  clearAll M = foldr (λ c acc, handleCategoryChange c EmptyString acc) M (filter_keys M)
  ∧ evaluate D (clearAll M) = D
  ∧ length (filter_keys (clearAll M)) = 0.
Proof.
  split_and!; [|done..].
  apply map_eq. intros key. rewrite foldr_clear_lookup. unfold clearAll.
  rewrite lookup_empty. case_decide as Hin; [done|].
  destruct (M !! key) as [fv|] eqn:Hk; [|done]. destruct Hin.
  unfold filter_keys. apply list_elem_of_fmap. exists (key, fv).
  split; [done|]. by apply elem_of_map_to_list.
Qed.

End handler_algebra.

(** ** Strings: lower case, search, split *)

Section strings.
Implicit Types (s t needle : string) (c sep : ascii).

Lemma string_app_nil_l s : EmptyString +:+ s = s.
Proof. done. Qed.

Lemma string_app_cons c s t : String c s +:+ t = String c (s +:+ t).
Proof. done. Qed.

Lemma string_app_nil_r s : s +:+ EmptyString = s.
Proof.
  induction s as [|c s IH]; [done|]. by rewrite string_app_cons, IH.
Qed.

Lemma string_app_assoc s t u : (s +:+ t) +:+ u = s +:+ (t +:+ u).
Proof.
  induction s as [|c s IH]; [done|]. by rewrite !string_app_cons, IH.
Qed.

Lemma toLowerCase_ascii_idemp c :
  toLowerCase_ascii (toLowerCase_ascii c) = toLowerCase_ascii c.
Proof.
  unfold toLowerCase_ascii. cbv zeta.
  destruct (bool_decide (65 ≤ nat_of_ascii c ≤ 90)) eqn:Hup; [|by rewrite Hup].
  apply bool_decide_eq_true in Hup.
  rewrite nat_ascii_embedding by lia. rewrite bool_decide_false; [done|lia].
Qed.

Lemma toLowerCase_idemp s : toLowerCase (toLowerCase s) = toLowerCase s.
Proof.
  induction s as [|c s IH]; [done|]. simpl. by rewrite toLowerCase_ascii_idemp, IH.
Qed.

Lemma toLowerCase_app s t : toLowerCase (s +:+ t) = toLowerCase s +:+ toLowerCase t.
Proof.
  induction s as [|c s IH]; [done|].
  rewrite string_app_cons. cbn [toLowerCase]. by rewrite string_app_cons, IH.
Qed.

Lemma startsWith_spec s needle :
  startsWith s needle ↔ ∃ post, s = needle +:+ post.
Proof.
  revert s. induction needle as [|c needle IH]; intros s; simpl.
  { split; [by exists s|done]. }
  destruct s as [|d s].
  { split; [done|]. by intros (post & ?). }
  rewrite andb_True, bool_decide_spec, IH. split.
  - intros [-> (post & ->)]. by exists post.
  - intros (post & [= -> ->]). split; [done|]. by exists post.
Qed.

Lemma includes_spec s needle :
  includes s needle ↔ ∃ pre post, s = pre +:+ needle +:+ post.
Proof.
  induction s as [|d s IH]; simpl.
  - rewrite orb_True, startsWith_spec. split.
    + intros [(post & Hs)|[]]. by exists EmptyString, post.
    + intros (pre & post & Hs). left. destruct pre; [|done]. by exists post.
  - rewrite orb_True, startsWith_spec, IH. split.
    + intros [(post & Hs)|(pre & post & ->)].
      * by exists EmptyString, post.
      * by exists (String d pre), post.
    + intros (pre & post & Hs). destruct pre as [|d' pre].
      * left. by exists post.
      * right. injection Hs as -> ->. by exists pre, post.
Qed.

Lemma includes_empty s : includes s EmptyString = true.
Proof. by destruct s. Qed.

Lemma includes_app s t u : includes s (t +:+ u) → includes s t ∧ includes s u.
Proof.
  rewrite !includes_spec. intros (pre & post & ->). split.
  - exists pre, (u +:+ post). by rewrite string_app_assoc.
  - exists (pre +:+ t), post. by rewrite !string_app_assoc.
Qed.

(** X13.  The dropdown search, with lower-casing done letter by letter as
    [toLowerCase] has it here: an empty search shows every option; a search
    shows options in their original order; typing more, at either end of the
    search term, never brings an option back; the case of the search term
    does not matter; and every option is found by its own text. *)
Theorem dropdown_search_narrows (options : list string) (term more : string) :
  filteredOptions options EmptyString = options
  ∧ filteredOptions options term `sublist_of` options
  ∧ filteredOptions options (term +:+ more) `sublist_of` filteredOptions options term
  ∧ filteredOptions options (more +:+ term) `sublist_of` filteredOptions options term
  ∧ filteredOptions options (toLowerCase term) = filteredOptions options term
  ∧ (∀ opt, opt ∈ options → opt ∈ filteredOptions options opt).
Proof.
  assert (∀ t u, (∀ opt, includes (toLowerCase opt) (toLowerCase u) →
                          includes (toLowerCase opt) (toLowerCase t)) →
            filteredOptions options u `sublist_of` filteredOptions options t) as Hnarrow.
  { intros t u Himp. unfold filteredOptions.
    assert (filter (λ opt, includes (toLowerCase opt) (toLowerCase u)) options
            = filter (λ opt, includes (toLowerCase opt) (toLowerCase u))
                (filter (λ opt, includes (toLowerCase opt) (toLowerCase t)) options))
      as ->.
    { rewrite list_filter_filter. apply list_filter_iff. intros opt.
      split; [|tauto]. intros Hu. split; [done|]. by apply Himp. }
    apply sublist_filter. }
  split_and!.
  - clear Hnarrow. unfold filteredOptions.
    induction options as [|opt options IH]; [done|].
    rewrite filter_cons_True; [by rewrite IH|].
    change (toLowerCase EmptyString) with EmptyString. by rewrite includes_empty.
  - apply sublist_filter.
  - apply Hnarrow. intros opt. rewrite toLowerCase_app. by intros [? _]%includes_app.
  - apply Hnarrow. intros opt. rewrite toLowerCase_app. by intros [_ ?]%includes_app.
  - unfold filteredOptions. by rewrite toLowerCase_idemp.
  - intros opt Hopt. unfold filteredOptions. apply list_elem_of_filter. split; [|done].
    apply includes_spec. exists EmptyString, EmptyString. simpl.
    by rewrite string_app_nil_r.
Qed.

Lemma split_nonempty sep s : split sep s ≠ [].
Proof.
  destruct s as [|c s]; [done|]. simpl. case_decide; [done|].
  by destruct (split sep s).
Qed.

Lemma join_cons (glue seg : string) (segs : list string) :
  segs ≠ [] → join glue (seg :: segs) = seg +:+ glue +:+ join glue segs.
Proof. by destruct segs. Qed.

Lemma join_split sep s : join (String sep EmptyString) (split sep s) = s.
Proof.
  induction s as [|c s IH]; [done|]. cbn [split].
  pose proof (split_nonempty sep s) as Hne. case_decide as Hc.
  - rewrite join_cons by done. by rewrite IH, Hc.
  - destruct (split sep s) as [|seg segs]; [done|].
    destruct segs as [|seg' segs].
    + change (seg = s) in IH. change (String c seg = String c s). by rewrite IH.
    + rewrite join_cons by done. rewrite join_cons in IH by done.
      by rewrite string_app_cons, IH.
Qed.

Lemma split_segments_free sep s seg :
  seg ∈ split sep s → includes seg (String sep EmptyString) = false.
Proof.
  revert seg. induction s as [|c s IH]; intros seg; cbn [split].
  { by intros ->%list_elem_of_singleton. }
  pose proof (split_nonempty sep s) as Hne. case_decide as Hc.
  - intros [->|Hin]%elem_of_cons; [done|]. by apply IH.
  - destruct (split sep s) as [|seg0 segs]; [done|].
    intros [->|Hin]%elem_of_cons.
    + assert (includes seg0 (String sep EmptyString) = false) as H0 by (apply IH; left).
      simpl. rewrite bool_decide_false by congruence. simpl.
      destruct seg0; [done|]. simpl in *. done.
    + apply IH. by right.
Qed.

Lemma split_without_separator sep s :
  includes s (String sep EmptyString) = false → split sep s = [s].
Proof.
  induction s as [|c s IH]; [done|]. cbn [split includes startsWith].
  intros Hno. apply orb_false_iff in Hno as [Hhead Htail].
  destruct (decide (c = sep)) as [->|Hc].
  { by rewrite bool_decide_true in Hhead. }
  by rewrite (IH Htail).
Qed.

(** X14.  Splitting a file name at its dots loses nothing: joining the segments
    with dots gives the name back, no segment holds a dot, and there is
    always a first and a last segment.  So the extension is never undefined,
    the stem of the exported file name holds no dot and begins the file name,
    and a name without a dot is its own stem and, in lower case, its own
    extension. *)
Theorem file_name_segments (file : File) :
  join "." (split "." (file_name file)) = file_name file
  ∧ (∀ seg, seg ∈ split "." (file_name file) → includes seg "." = false)
  ∧ (∃ stem ext,
       head (split "." (file_name file)) = Some stem
       ∧ last (split "." (file_name file)) = Some ext
       ∧ extension_of file = Some (toLowerCase ext)
       ∧ pdf_name (file_name file) = stem +:+ "_overview.pdf"
       ∧ startsWith (file_name file) stem = true
       ∧ includes stem "." = false)
  ∧ (includes (file_name file) "." = false →
       extension_of file = Some (toLowerCase (file_name file))
       ∧ pdf_name (file_name file) = file_name file +:+ "_overview.pdf").
Proof.
  split_and!.
  - apply join_split.
  - intros seg. apply split_segments_free.
  - pose proof (split_nonempty "." (file_name file)) as Hne.
    pose proof (join_split "." (file_name file)) as Hjoin.
    pose proof (split_segments_free "." (file_name file)) as Hfree.
    unfold extension_of, pdf_name.
    destruct (split "." (file_name file)) as [|stem segs] eqn:Hsplit; [done|].
    destruct (last (stem :: segs)) as [ext|] eqn:Hlast.
    2:{ by apply last_None in Hlast. }
    exists stem, ext. split_and!; try done.
    + apply Is_true_true, startsWith_spec. rewrite <-Hjoin.
      destruct segs; [exists EmptyString; simpl; by rewrite string_app_nil_r|].
      rewrite join_cons by done. eauto.
    + apply Hfree. left.
  - intros Hno. unfold extension_of, pdf_name.
    by rewrite (split_without_separator _ _ Hno).
Qed.

End strings.

(** ** The chart legend and the pie *)

Section chart_widget.
Context `{Engine}.
Implicit Types (data : list DataRow) (hidden : gset (option string)) (e : LegendEvent).

Lemma Array_findIndex_found {A} (p : A → bool) (l : list A) :
  (∃ x, x ∈ l ∧ p x) →
  ∃ i x, Array_findIndex p l = Z.of_nat i ∧ l !! i = Some x ∧ p x
         ∧ ∀ j y, j < i → l !! j = Some y → ¬ p y.
Proof.
  induction l as [|x0 l IH]; intros (x & Hin & Hp).
  { by apply elem_of_nil in Hin. }
  cbn [Array_findIndex]. destruct (p x0) eqn:Hp0.
  - exists 0, x0. split_and!; [done|done|by rewrite Hp0|]. intros j y Hj. lia.
  - apply elem_of_cons in Hin as [->|Hin]; [by rewrite Hp0 in Hp|].
    destruct IH as (i & x' & Hi & Hx' & Hpx' & Hbefore); [eauto|].
    rewrite Hi. rewrite bool_decide_false by lia.
    exists (S i), x'. split_and!; [lia|done|done|].
    intros [|j] y Hj Hy.
    + injection Hy as <-. rewrite Hp0. intros [].
    + apply (Hbefore j); [lia|done].
Qed.

Lemma handleLegendClick_elem e hidden :
  (legend_key e ∈ handleLegendClick e hidden ↔ legend_key e ∉ hidden)
  ∧ ∀ key, key ≠ legend_key e → (key ∈ handleLegendClick e hidden ↔ key ∈ hidden).
Proof.
  unfold handleLegendClick. cbv zeta. case_decide as Hin; split.
  - rewrite elem_of_difference, elem_of_singleton. tauto.
  - intros key Hne. rewrite elem_of_difference, elem_of_singleton. tauto.
  - rewrite elem_of_union, elem_of_singleton. tauto.
  - intros key Hne. rewrite elem_of_union, elem_of_singleton. tauto.
Qed.

(** X15.  A click on a legend entry toggles its series: the clicked key changes
    sides, every other key stays where it was, and a second click on the same
    entry restores the set. *)
Theorem legend_click_toggles e hidden :
  (legend_key e ∈ handleLegendClick e hidden ↔ legend_key e ∉ hidden)
  ∧ (∀ key, key ≠ legend_key e → (key ∈ handleLegendClick e hidden ↔ key ∈ hidden))
  ∧ handleLegendClick e (handleLegendClick e hidden) = hidden.
Proof.
  split_and!; [apply handleLegendClick_elem..|].
  apply set_eq. intros key. destruct (decide (key = legend_key e)) as [->|Hne].
  - rewrite (proj1 (handleLegendClick_elem _ _)), (proj1 (handleLegendClick_elem _ _)).
    destruct (decide (legend_key e ∈ hidden)); tauto.
  - by rewrite (proj2 (handleLegendClick_elem _ _) key Hne),
         (proj2 (handleLegendClick_elem _ _) key Hne).
Qed.

(** X16.  The pie shows the rows whose name is not hidden, in order; with nothing
    hidden it shows every row; and a click on the legend entry of a visible
    name removes the rows of that name and no others. *)
Theorem pie_hides_clicked_slice data xKey hidden e name :
  pieData data xKey hidden `sublist_of` data
  ∧ pieData data xKey ∅ = data
  ∧ (legend_key e = Some name → Some name ∉ hidden →
       pieData data xKey (handleLegendClick e hidden)
       = filter (λ entry, String_of_cell (row_get entry xKey) ≠ name)
           (pieData data xKey hidden)).
Proof.
  split_and!.
  - apply sublist_filter.
  - unfold pieData. induction data as [|entry data IH]; [done|].
    rewrite filter_cons_True by apply not_elem_of_empty. by rewrite IH.
  - intros Hkey Hvisible. unfold pieData. rewrite list_filter_filter.
    apply list_filter_iff. intros entry.
    destruct (handleLegendClick_elem e hidden) as [_ Hother].
    destruct (decide (String_of_cell (row_get entry xKey) = name)) as [->|Hne].
    + split; [|tauto]. intros Hnot. destruct Hnot.
      unfold handleLegendClick. cbv zeta. rewrite Hkey.
      rewrite decide_False by done.
      rewrite elem_of_union, elem_of_singleton. by right.
    + rewrite Hother; [tauto|]. rewrite Hkey. congruence.
Qed.

(** X17.  Every row of the dataset, so every cell of the pie, gets one of the
    seven colours: the colour at the position of the first row with the same
    name, counted modulo seven in the unfiltered dataset.  It is never
    undefined and does not change when other slices are hidden. *)
Theorem pie_cell_has_a_colour data xKey hidden entry :
  entry ∈ pieData data xKey hidden →
  ∃ i first colour,
    data !! i = Some first
    ∧ String_of_cell (row_get first xKey) = String_of_cell (row_get entry xKey)
    ∧ (∀ j row, j < i → data !! j = Some row →
         String_of_cell (row_get row xKey) ≠ String_of_cell (row_get entry xKey))
    ∧ pie_cell_fill data xKey entry = Some colour
    ∧ COLORS !! (i `mod` 7) = Some colour.
Proof.
  intros [_ Hin]%list_elem_of_filter.
  destruct (Array_findIndex_found
              (λ d, bool_decide (String_of_cell (row_get d xKey)
                                 = String_of_cell (row_get entry xKey))) data)
    as (i & first & Hi & Hfirst & Hname & Hbefore).
  { exists entry. split; [done|]. by apply bool_decide_pack. }
  assert (i `mod` 7 < length COLORS) as Hlt by (apply Nat.mod_upper_bound; done).
  destruct (lookup_lt_is_Some_2 COLORS _ Hlt) as [colour Hcolour].
  exists i, first, colour. split_and!; [done| | | |done].
  - by apply bool_decide_unpack in Hname.
  - intros j row Hj Hrow Heq. apply (Hbefore j row Hj Hrow). by apply bool_decide_pack.
  - unfold pie_cell_fill. cbv zeta. rewrite Hi. unfold COLORS_at.
    change (Z.of_nat (length COLORS)) with 7%Z.
    rewrite Z.rem_mod_nonneg by lia.
    rewrite bool_decide_false by (pose proof (Z.mod_pos_bound (Z.of_nat i) 7); lia).
    rewrite <-Hcolour. f_equal.
    change 7%Z with (Z.of_nat 7). rewrite <-Nat2Z.inj_mod. apply Nat2Z.id.
Qed.

End chart_widget.

(** ** Upload, parse and classify *)

Section upload.
Context `{Decoders} `{!ArraySort}.
Implicit Types (file : File) (ds : DataSet).

(** X18.  Parse warnings do not reject a file: when Papa Parse completes with at
    least one row, a file with the csv extension resolves whatever the list
    of errors, with the rows as decoded, the name of the file, the number of
    rows, and the reported fields (or else the keys of the first row) as
    headers; a warning is logged exactly when there were errors. *)
Theorem csv_resolves_despite_parse_errors file row0 rows errors fields :
  extension_of file = Some "csv" →
  Papa_parse file = PapaComplete (row0 :: rows) errors fields →
  parseFile file =
    (StartedPapa :: (if bool_decide (0 < length errors) then [Warned] else []),
     inr {| fileName := file_name file;
            headers := default (Object_keys row0) fields;
            data := row0 :: rows;
            rowCount := S (length rows) |}).
Proof.
  intros Hext Hpapa.
  destruct (parseFile_dispatch file) as [[_ ->]|[[[Hx|Hx] _]|[Hno _]]].
  - unfold parseCSV. by rewrite Hpapa.
  - by rewrite Hext in Hx.
  - by rewrite Hext in Hx.
  - destruct Hno. rewrite Hext. left.
Qed.

Lemma parseExcel_headers file ds :
  (parseExcel file).2 = inr ds →
  ∃ row0 rest, data ds = row0 :: rest ∧ headers ds = Object_keys row0
               ∧ fileName ds = file_name file.
Proof.
  unfold parseExcel. destruct (XLSX_read file) as [e|e|rows]; [done..|].
  destruct rows as [|row0 rows]; [done|]. intros [= <-]. by exists row0, rows.
Qed.

Lemma parseCSV_headers file ds rows errors :
  Papa_parse file = PapaComplete rows errors None →
  (parseCSV file).2 = inr ds →
  ∃ row0 rest, data ds = row0 :: rest ∧ headers ds = Object_keys row0
               ∧ fileName ds = file_name file.
Proof.
  unfold parseCSV. intros ->.
  destruct rows as [|row0 rows]; [done|]. intros [= <-]. by exists row0, rows.
Qed.

(** X19.  A parsed dataset is always classified: the classifier does not return
    early on it, and for a workbook, or a CSV file for which no fields were
    reported, the names of the descriptors are among the headers of the
    dataset, in the order of the headers. *)
Theorem parsed_dataset_is_classified file ds :
  (parseFile file).2 = inr ds →
  (∃ cols, detectColumns (data ds) = Some cols)
  ∧ (extension_of file ≠ Some "csv"
     ∨ (∃ rows errors, Papa_parse file = PapaComplete rows errors None) →
     ∃ cols, detectColumns (data ds) = Some cols
             ∧ (name <$> cols) `sublist_of` headers ds).
Proof.
  intros Hds.
  assert (∀ row0 rest, data ds = row0 :: rest → headers ds = Object_keys row0 →
            ∃ cols, detectColumns (data ds) = Some cols
                    ∧ (name <$> cols) `sublist_of` headers ds) as Hnames.
  { intros row0 rest Hdata Hheaders.
    exists (default [] (detectColumns (data ds))). rewrite Hdata. split; [done|].
    rewrite detectColumns_names, Hheaders. apply sublist_filter. }
  split.
  - destruct (parseFile_dispatch file) as [[_ Hp]|[[_ Hp]|[_ Hp]]];
      rewrite Hp in Hds; [| |done].
    + apply parseCSV_resolved in Hds as [Hne _].
      destruct (data ds) as [|row0 rest]; [done|]. by eexists.
    + apply parseExcel_resolved in Hds as [Hne _].
      destruct (data ds) as [|row0 rest]; [done|]. by eexists.
  - intros Hwhich.
    destruct (parseFile_dispatch file) as [[Hext Hp]|[[_ Hp]|[_ Hp]]];
      rewrite Hp in Hds; [| |done].
    + destruct Hwhich as [?|(rows & errors & Hpapa)]; [done|].
      destruct (parseCSV_headers _ _ _ _ Hpapa Hds) as (row0 & rest & ? & ? & _).
      by apply (Hnames row0 rest).
    + destruct (parseExcel_headers _ _ Hds) as (row0 & rest & ? & ? & _).
      by apply (Hnames row0 rest).
Qed.

(** X20.  The check at upload lets through every file the parser can dispatch, so
    what it refuses the parser would have refused as well; a file let
    through and then refused by the parser as unsupported is one with a
    spreadsheet media type under a foreign extension. *)
Theorem upload_check_and_parser file_type file :
  let unsupported : Promise DataSet :=
    ([], inl (MkError "Unsupported file format. Please upload CSV or Excel files.")) in
  (validateAndPassFile file_type file = inr file
   ∨ validateAndPassFile file_type file = inl "Please upload a valid CSV or Excel file.")
  ∧ (extension_of file ∈ [Some "csv"; Some "xls"; Some "xlsx"] →
       validateAndPassFile file_type file = inr file)
  ∧ (validateAndPassFile file_type file ≠ inr file → parseFile file = unsupported)
  ∧ (validateAndPassFile file_type file = inr file
     ∧ extension_of file ∉ [Some "csv"; Some "xls"; Some "xlsx"]
     ↔ file_type ∈ validTypes
       ∧ extension_of file ∉ [Some "csv"; Some "xls"; Some "xlsx"]).
Proof.
  cbv zeta.
  assert (extension_of file ∈ [Some "csv"; Some "xls"; Some "xlsx"] →
          validateAndPassFile file_type file = inr file) as Hext.
  { rewrite !elem_of_cons, elem_of_nil. unfold validateAndPassFile. cbv zeta.
    intros [->|[->|[->|[]]]]; by rewrite ?orb_true_r. }
  assert (extension_of file ∉ [Some "csv"; Some "xls"; Some "xlsx"] →
          (validateAndPassFile file_type file = inr file ↔ file_type ∈ validTypes))
    as Htype.
  { rewrite !elem_of_cons, elem_of_nil. intros Hno.
    unfold validateAndPassFile. cbv zeta.
    rewrite !(bool_decide_false (extension_of file = _)) by tauto.
    rewrite !orb_false_r. case_bool_decide; split; done. }
  split_and!.
  - unfold validateAndPassFile. cbv zeta. destruct (_ || _); [by left|by right].
  - done.
  - intros Hrefused.
    destruct (parseFile_dispatch file) as [[Hx _]|[[[Hx|Hx] _]|[_ Hp]]]; [| | |done];
      destruct Hrefused; apply Hext; rewrite Hx, !elem_of_cons; tauto.
  - split; intros [? Hno]; (split; [|done]); by apply (Htype Hno).
Qed.

End upload.

(** ** The services and the life cycle of [App] *)

Section app.
Context `{Engine} `{!Decoders} `{!Services}.
Implicit Types (file : File) (ds : DataSet) (st : AppState).

Lemma error_message_nonempty (err : Error) : error_message err ≠ EmptyString.
Proof.
  destruct err as [message]. unfold error_message, truthy.
  case_bool_decide as Hm; simpl; [done|]. done.
Qed.

(** X21.  Whatever goes wrong in the analysis, the caller sees one message: a
    rejected request, a missing or empty response text and unreadable JSON
    all end in the same error, and the inner empty-response error never gets
    out.  The analysis resolves exactly when the request resolved with a
    non-empty text that parses, and then with the parsed value. *)
Theorem analysis_failures_are_normalised (dataSample : string) :
  (∀ cfg, generateDashboardConfig dataSample = inr cfg ↔
     ∃ text, generateContent dataSample = inr (Some text)
             ∧ text ≠ EmptyString ∧ JSON_parse text = inr cfg)
  ∧ (∀ err, generateDashboardConfig dataSample = inl err →
       err = MkError "Failed to analyze data. Please try again.")
  ∧ generateDashboardConfig dataSample ≠ inl (MkError "Empty response from AI").
Proof.
  unfold generateDashboardConfig, analysis_attempt, truthy. split_and!.
  - intros cfg. destruct (generateContent dataSample) as [e|[text|]]; simpl.
    + split; [done|]. by intros (? & ? & _).
    + case_bool_decide as Ht; simpl.
      * split; [done|]. intros (t & [= <-] & ? & _). done.
      * destruct (JSON_parse text) as [e|c] eqn:Hp.
        -- split; [done|]. intros (t & [= <-] & _ & Hp'). by rewrite Hp in Hp'.
        -- split.
           ++ intros [= <-]. by exists text.
           ++ intros (t & [= <-] & _ & Hp'). by rewrite Hp in Hp'.
    + split; [done|]. by intros (? & ? & _).
  - intros err. destruct (generateContent dataSample) as [e|[text|]]; simpl.
    + by intros [= <-].
    + case_bool_decide; simpl; [by intros [= <-]|].
      destruct (JSON_parse text); [by intros [= <-]|done].
    + by intros [= <-].
  - destruct (generateContent dataSample) as [e|[text|]]; simpl; [done| |done].
    case_bool_decide; simpl; [done|]. by destruct (JSON_parse text).
Qed.

(** X22.  What is sent for analysis of a parsed dataset: between 1 and 50 rows,
    the first rows of the dataset, with the true number of rows beside them;
    and nothing else of the dataset matters: neither the name of the file nor
    any row after the fiftieth changes the sample. *)
Theorem sample_of_parsed_dataset file ds :
  (parseFile file).2 = inr ds →
  payload_sample (sample_payload ds) = take 50 (data ds)
  ∧ 1 ≤ length (payload_sample (sample_payload ds)) ≤ 50
  ∧ length (payload_sample (sample_payload ds))
    = 50 `min` payload_rowCount (sample_payload ds)
  ∧ payload_rowCount (sample_payload ds) = length (data ds)
  ∧ ∀ ds', headers ds' = headers ds → rowCount ds' = rowCount ds →
           take 50 (data ds') = take 50 (data ds) →
           prepareDataSample ds' = prepareDataSample ds.
Proof.
  intros Hds.
  assert (data ds ≠ [] ∧ rowCount ds = length (data ds)) as [Hne Hcount].
  { destruct (parseFile_dispatch file) as [[_ Hp]|[[_ Hp]|[_ Hp]]];
      rewrite Hp in Hds; [| |done].
    - by apply (parseCSV_resolved file).
    - by apply (parseExcel_resolved file). }
  unfold sample_payload, sampleSize. cbn [payload_sample payload_rowCount].
  rewrite length_take, Hcount. split_and!; [done| | |done|done|].
  - destruct (data ds); [done|]. simpl. lia.
  - lia.
  - intros ds' Hh Hc Ht. unfold prepareDataSample, sample_payload, sampleSize.
    by rewrite Hh, Hc, Ht, Hcount.
Qed.

Lemma handleFileSelect_final_cases file st :
  (∃ ds cfg,
     (parseFile file).2 = inr ds
     ∧ generateDashboardConfig (prepareDataSample ds) = inr cfg
     ∧ handleFileSelect_final file st =
         {| dataSet := Some ds;
            analysis := {| isLoading := false; error := None; config := Some cfg |} |})
  ∨ (∃ err,
       ((parseFile file).2 = inl err
        ∨ ∃ ds, (parseFile file).2 = inr ds
                ∧ generateDashboardConfig (prepareDataSample ds) = inl err)
       ∧ handleFileSelect_final file st =
           {| dataSet := None;
              analysis := {| isLoading := false; error := Some (error_message err);
                             config := None |} |}).
Proof.
  unfold handleFileSelect_final, handleFileSelect. cbv zeta.
  destruct (parseFile file) as [parse_events [err|ds]]; cbn [snd].
  - right. exists err. split; [by left|done].
  - destruct (generateDashboardConfig (prepareDataSample ds)) as [err|cfg] eqn:Hcfg.
    + right. exists err. split; [right; by exists ds|done].
    + left. by exists ds, cfg.
Qed.

(** X23.  A run of [handleFileSelect] ends in one of two states, whatever the
    state it started from: the dataset and the value returned by the analysis
    are both stored, without error, when parsing and analysis both succeeded;
    or neither is stored and a non-empty error message is, when either
    failed.  Loading is over in both. *)
Theorem handleFileSelect_outcome file st :
  isLoading (analysis (handleFileSelect_final file st)) = false
  ∧ ((∃ ds cfg,
        (parseFile file).2 = inr ds
        ∧ generateDashboardConfig (prepareDataSample ds) = inr cfg
        ∧ handleFileSelect_final file st =
            {| dataSet := Some ds;
               analysis := {| isLoading := false; error := None; config := Some cfg |} |})
     ∨ (∃ err,
          ((parseFile file).2 = inl err
           ∨ ∃ ds, (parseFile file).2 = inr ds
                   ∧ generateDashboardConfig (prepareDataSample ds) = inl err)
          ∧ error_message err ≠ EmptyString
          ∧ handleFileSelect_final file st =
              {| dataSet := None;
                 analysis := {| isLoading := false; error := Some (error_message err);
                                config := None |} |})).
Proof.
  destruct (handleFileSelect_final_cases file st)
    as [(ds & cfg & Hp & Hc & Hfin)|(err & Hwhy & Hfin)].
  - rewrite Hfin. split; [done|]. left. by exists ds, cfg.
  - rewrite Hfin. split; [done|]. right. exists err.
    split_and!; [done|apply error_message_nonempty|done].
Qed.

Lemma handleFileSelect_no_early_dashboard file st :
  config_usable st = false →
  ∀ i st', (handleFileSelect file st).2 !! i = Some st' →
           S i < length (handleFileSelect file st).2 →
           dashboard_shown st' = false.
Proof.
  intros Hcfg i st'. unfold handleFileSelect. cbv zeta.
  unfold config_usable in Hcfg.
  assert (∀ d a, dashboard_shown
            {| dataSet := d;
               analysis := {| isLoading := a; error := None;
                              config := config (analysis st) |} |} = false) as Hst.
  { intros d a. unfold dashboard_shown. cbn [config analysis dataSet].
    destruct (config (analysis st)); [|done]. rewrite Hcfg. by destruct d. }
  destruct (parseFile file) as [parse_events [err|ds]]; cbn [snd].
  - destruct i as [|[|[|i]]]; cbn; intros [= <-] Hlen;
      try first [lia|apply Hst|done].
  - destruct (generateDashboardConfig (prepareDataSample ds)); cbn [snd].
    + destruct i as [|[|[|[|i]]]]; cbn; intros [= <-] Hlen;
        try first [lia|apply Hst|done].
    + destruct i as [|[|[|i]]]; cbn; intros [= <-] Hlen;
        try first [lia|apply Hst|done].
Qed.

(** X24.  During a run the remote model is called at most once, only after the
    file was parsed, and with the sample of the parsed dataset; a file with an
    unsupported extension starts no decoder and no call.  Started from a
    state without usable configuration, no state written before the last one
    shows the dashboard. *)
Theorem handleFileSelect_run file st :
  (∀ dataSample, ModelCalled dataSample ∈ (handleFileSelect file st).1 →
     ∃ ds, (parseFile file).2 = inr ds ∧ dataSample = prepareDataSample ds)
  ∧ length (filter (λ ev, is_model_call ev) (handleFileSelect file st).1) ≤ 1
  ∧ (extension_of file ∉ [Some "csv"; Some "xls"; Some "xlsx"] →
       (handleFileSelect file st).1 = [ConsoleError])
  ∧ (config_usable st = false →
       ∀ i st', (handleFileSelect file st).2 !! i = Some st' →
                S i < length (handleFileSelect file st).2 →
                dashboard_shown st' = false).
Proof.
  assert (∀ events : list Event, ∀ dataSample,
            ModelCalled dataSample ∉ Parsing <$> events) as Hparse.
  { intros events dataSample (e & ? & _)%list_elem_of_fmap. done. }
  assert (∀ events : list Event,
            filter (λ ev, is_model_call ev) (Parsing <$> events) = []) as Hnone.
  { intros events. induction events as [|e events IH]; [done|].
    rewrite fmap_cons, filter_cons_False; [done|]. by intros []. }
  split_and!.
  - intros dataSample. unfold handleFileSelect. cbv zeta.
    destruct (parseFile file) as [parse_events [err|ds]]; cbn [fst snd].
    + rewrite elem_of_app, list_elem_of_singleton. intros [Hin|?]; [|done].
      by apply Hparse in Hin.
    + destruct (generateDashboardConfig (prepareDataSample ds)); cbn [fst];
        rewrite elem_of_app, !elem_of_cons; intros [Hin|Hin];
        try (by apply Hparse in Hin).
      * destruct Hin as [[= ->]|[?|[?|Hin]]]; try done; [by exists ds|].
        by apply elem_of_nil in Hin.
      * destruct Hin as [[= ->]|Hin]; [by exists ds|]. by apply elem_of_nil in Hin.
  - unfold handleFileSelect. cbv zeta.
    destruct (parseFile file) as [parse_events [err|ds]]; cbn [fst].
    + rewrite filter_app, Hnone. rewrite filter_cons_False by (by intros []).
      simpl. lia.
    + destruct (generateDashboardConfig (prepareDataSample ds)); cbn [fst];
        rewrite filter_app, Hnone, filter_cons_True by done.
      * rewrite !filter_cons_False by (by intros []). simpl. lia.
      * simpl. lia.
  - intros Hno. unfold handleFileSelect. cbv zeta.
    destruct (parseFile_dispatch file) as [[Hx _]|[[Hx _]|[_ ->]]]; [| |done].
    + destruct Hno. rewrite Hx. left.
    + destruct Hno. destruct Hx as [-> | ->]; [right; left|do 2 right; left].
  - apply handleFileSelect_no_early_dashboard.
Qed.

(** X25.  Between user actions [App] is never loading and never half loaded with
    an error: an error message on screen means that neither dataset nor
    configuration is kept, a dashboard on screen means that there is no
    error, and a configuration that can be shown always comes with its
    dataset.  So a new upload never shows the dashboard before its own
    analysis has ended. *)
Theorem reachable_states_are_settled st :
  reachable st →
  isLoading (analysis st) = false
  ∧ (is_Some (error (analysis st)) →
       dataSet st = None ∧ config (analysis st) = None)
  ∧ (dashboard_shown st = true → error (analysis st) = None)
  ∧ (config_usable st = true → dashboard_shown st = true)
  ∧ (dashboard_shown st = false →
       ∀ file i st', (handleFileSelect file st).2 !! i = Some st' →
                     S i < length (handleFileSelect file st).2 →
                     dashboard_shown st' = false).
Proof.
  intros Hreach.
  assert (isLoading (analysis st) = false
          ∧ (is_Some (error (analysis st)) →
               dataSet st = None ∧ config (analysis st) = None)
          ∧ (dashboard_shown st = true → error (analysis st) = None)
          ∧ (config_usable st = true → dashboard_shown st = true))
    as (Hload & Herr & Hshown & Husable).
  { induction Hreach as [|file st Hreach IH Hupload|st Hreach IH].
    - split_and!; try done; by intros [? ?].
    - destruct (handleFileSelect_final_cases file st)
        as [(ds & cfg & _ & _ & ->)|(err & _ & ->)];
        split_and!; try done; by intros [? ?].
    - split_and!; try done; by intros [? ?]. }
  split_and!; [done..|].
  intros Hnot file. apply handleFileSelect_no_early_dashboard.
  destruct (config_usable st) eqn:Hu; [|done].
  by rewrite (Husable eq_refl) in Hnot.
Qed.

(** X26.  The theme survives a reload: once the effect has stored the mode, the
    next start reads that mode back, whatever the system prefers; the system
    preference decides only when nothing is stored; and two toggles give the
    mode back. *)
Theorem theme_survives_reload (isDarkMode : bool) (b : Browser) :
  initial_isDarkMode (persist_theme isDarkMode b) = isDarkMode
  ∧ (stored_theme b = None → initial_isDarkMode b = prefers_dark b)
  ∧ toggleTheme (toggleTheme isDarkMode) = isDarkMode
  ∧ initial_isDarkMode (persist_theme (toggleTheme isDarkMode) b) = negb isDarkMode.
Proof.
  split_and!.
  - by destruct isDarkMode.
  - unfold initial_isDarkMode. intros ->. by destruct (prefers_dark b).
  - by destruct isDarkMode.
  - by destruct isDarkMode.
Qed.

End app.

(** ** The further properties at work on the example data *)

Module MoreScenarios.
Import Reference Examples MoreExamples.

Lemma evaluate_in_two_steps_witness :
  (∀ key fv1 fv2, east_only !! key = Some fv1 → other_only !! key = Some fv2 → fv1 = fv2)
  ∧ evaluate (evaluate case_rows east_only) other_only
    = evaluate case_rows (east_only ∪ other_only).
Proof.
  assert (∀ key fv1 fv2, east_only !! key = Some fv1 → other_only !! key = Some fv2 →
                         fv1 = fv2) as Hagree.
  { unfold east_only, other_only.
    intros key fv1 fv2 [<- <-]%lookup_singleton_Some [? ?]%lookup_singleton_Some.
    done. }
  split; [done|]. exact (evaluate_in_two_steps case_rows east_only other_only Hagree).
Defined.

Lemma evaluate_antitone_witness :
  (∅ : gmap string FilterValue) ⊆ east_only
  ∧ evaluate case_rows east_only `sublist_of` evaluate case_rows ∅.
Proof.
  assert ((∅ : gmap string FilterValue) ⊆ east_only) as Hsub
    by apply map_empty_subseteq.
  split; [done|]. exact (proj1 (evaluate_antitone case_rows ∅ east_only Hsub)).
Defined.

Lemma applyFilters_allocates_witness :
  ([case_rows] : heap) !! 0 = Some case_rows
  ∧ east_only ≠ ∅
  ∧ ∃ h1 a1 h2 a2,
      applyFilters [case_rows] 0 east_only = Some (h1, a1)
      ∧ applyFilters h1 0 east_only = Some (h2, a2)
      ∧ a1 ≠ 0 ∧ a2 ≠ 0 ∧ a1 ≠ a2
      ∧ h2 !! a1 = Some (evaluate case_rows east_only)
      ∧ h2 !! a2 = Some (evaluate case_rows east_only)
      ∧ h2 !! 0 = Some case_rows.
Proof.
  assert (east_only ≠ ∅) as Hne by apply map_non_empty_singleton.
  split_and!; [reflexivity|done|].
  exact (applyFilters_allocates [case_rows] 0 case_rows east_only eq_refl Hne).
Defined.

Lemma offered_option_matches_a_row_witness :
  detectColumns region_rows = Some [region_descriptor]
  ∧ region_descriptor ∈ [region_descriptor]
  ∧ "north" ∈ ["east"; "north"; "west"]
  ∧ ∃ row, row ∈ take ROW_LIMIT region_rows
           ∧ row ∈ evaluate region_rows {[ "Region" := FCategory "north" ]}.
Proof.
  assert (detectColumns region_rows = Some [region_descriptor]) as Hcols by reflexivity.
  assert (region_descriptor ∈ [region_descriptor]) as Hd by left.
  assert ("north" ∈ ["east"; "north"; "west"]) as Ho by (right; left).
  split_and!; [done..|].
  exact (proj2 (proj2 (offered_option_matches_a_row region_rows [region_descriptor]
                         region_descriptor ["east"; "north"; "west"] "north"
                         Hcols Hd eq_refl Ho))).
Defined.

Lemma sampled_row_is_reachable_witness :
  row_of "Region" (VString "west") ∈ take ROW_LIMIT region_rows
  ∧ "west" ∈ ["east"; "north"; "west"]
  ∧ row_of "Region" (VString "west")
      ∈ evaluate region_rows {[ "Region" := FCategory "west" ]}.
Proof.
  assert (detectColumns region_rows = Some [region_descriptor]) as Hcols by reflexivity.
  assert (region_descriptor ∈ [region_descriptor]) as Hd by left.
  assert (row_of "Region" (VString "west") ∈ take ROW_LIMIT region_rows) as Hrow by left.
  split; [done|].
  refine (sampled_row_is_reachable region_rows [region_descriptor] region_descriptor
            ["east"; "north"; "west"] (row_of "Region" (VString "west")) (VString "west")
            Hcols Hd eq_refl Hrow eq_refl _).
  discriminate.
Defined.

Lemma updates_of_distinct_columns_commute_witness :
  "Region" ≠ "Signup_Date"
  ∧ handleDateChange "Region" field_start "2023-01-01"
      (handleDateChange "Signup_Date" field_end "2023-06-30" east_only)
    = handleDateChange "Signup_Date" field_end "2023-06-30"
        (handleDateChange "Region" field_start "2023-01-01" east_only).
Proof.
  assert ("Region" ≠ "Signup_Date") as Hne by done.
  split; [done|].
  exact (proj2 (proj2 (updates_of_distinct_columns_commute east_only "Region"
                         "Signup_Date" "East" "x" field_start field_end
                         "2023-01-01" "2023-06-30" Hne))).
Defined.

Lemma pie_cell_has_a_colour_witness :
  row_of "Region" (VString "north") ∈ pieData region_rows "Region" {[ Some "east" ]}
  ∧ ∃ i first colour,
      region_rows !! i = Some first
      ∧ String_of_cell (row_get first "Region") = "north"
      ∧ (∀ j row, j < i → region_rows !! j = Some row →
           String_of_cell (row_get row "Region") ≠ "north")
      ∧ pie_cell_fill region_rows "Region" (row_of "Region" (VString "north"))
        = Some colour
      ∧ COLORS !! (i `mod` 7) = Some colour.
Proof.
  assert (row_of "Region" (VString "north")
            ∈ pieData region_rows "Region" {[ Some "east" ]}) as Hin
    by (apply (bool_decide_unpack _); vm_compute; exact I).
  split; [done|].
  exact (pie_cell_has_a_colour region_rows "Region" {[ Some "east" ]}
           (row_of "Region" (VString "north")) Hin).
Defined.

Lemma csv_resolves_despite_parse_errors_witness :
  extension_of csv_file = Some "csv"
  ∧ parseFile (H0 := warning_decoders blank_column_rows) csv_file
    = ([StartedPapa; Warned], inr parsed_blank_column).
Proof.
  split; [reflexivity|].
  exact (@csv_resolves_despite_parse_errors engine (warning_decoders blank_column_rows)
           csv_file [("Notes", VNull); ("Name", VString "a")]
           [[("Name", VString "b")]] ["TooFewFields"] None eq_refl eq_refl).
Defined.

Lemma parsed_dataset_is_classified_witness :
  (parseFile (H0 := warning_decoders blank_column_rows) csv_file).2
    = inr parsed_blank_column
  ∧ ∃ cols, detectColumns blank_column_rows = Some cols
            ∧ (name <$> cols) `sublist_of` ["Notes"; "Name"].
Proof.
  split; [reflexivity|].
  refine (proj2 (@parsed_dataset_is_classified engine
                   (warning_decoders blank_column_rows) sorting csv_file
                   parsed_blank_column eq_refl) _).
  right. by exists blank_column_rows, ["TooFewFields"].
Defined.

Lemma sample_of_parsed_dataset_witness :
  (parseFile (H0 := warning_decoders blank_column_rows) csv_file).2
    = inr parsed_blank_column
  ∧ payload_sample (sample_payload parsed_blank_column) = blank_column_rows
  ∧ payload_rowCount (sample_payload parsed_blank_column) = 2.
Proof.
  split; [reflexivity|].
  destruct (@sample_of_parsed_dataset engine (warning_decoders blank_column_rows)
              (echo_services None) csv_file parsed_blank_column eq_refl)
    as (Hsample & _ & _ & Hcount & _).
  split; [exact Hsample|exact Hcount].
Defined.

Lemma reachable_states_are_settled_witness :
  reachable (H0 := warning_decoders blank_column_rows) after_upload
  ∧ dashboard_shown after_upload = true
  ∧ error (analysis after_upload) = None
  ∧ isLoading (analysis after_upload) = false
  ∧ error (analysis after_refused_file)
    = Some "Unsupported file format. Please upload CSV or Excel files."
  ∧ dataSet after_refused_file = None
  ∧ config (analysis after_refused_file) = None
  ∧ (∀ file i st',
       (handleFileSelect (H0 := warning_decoders blank_column_rows)
          file after_refused_file).2 !! i = Some st' →
       S i < length (handleFileSelect (H0 := warning_decoders blank_column_rows)
                       file after_refused_file).2 →
       dashboard_shown st' = false).
Proof.
  assert (reachable (H0 := warning_decoders blank_column_rows) after_refused_file)
    as Hrefused
    by exact (reachable_upload text_file initial_app reachable_initial eq_refl).
  assert (reachable (H0 := warning_decoders blank_column_rows) after_upload)
    as Hupload
    by exact (reachable_upload csv_file after_refused_file Hrefused eq_refl).
  destruct (@reachable_states_are_settled engine (warning_decoders blank_column_rows)
              (echo_services (Some "{}")) after_upload Hupload)
    as (Hload & _ & Hshown & _ & _).
  destruct (@reachable_states_are_settled engine (warning_decoders blank_column_rows)
              (echo_services (Some "{}")) after_refused_file Hrefused)
    as (_ & Herr & _ & _ & Hlater).
  split_and!; [exact Hupload|reflexivity|by apply Hshown|exact Hload|reflexivity
              |apply Herr; by eexists|apply Herr; by eexists|by apply Hlater].
Defined.

(** A whole run on the example file and services: the dashboard is shown at
    the end and only at the end. *)
Example upload_run :
  dashboard_shown
    (handleFileSelect_final (H0 := warning_decoders blank_column_rows)
       (H1 := echo_services (Some "{}")) csv_file initial_app) = true
  ∧ (dashboard_shown <$>
       (handleFileSelect (H0 := warning_decoders blank_column_rows)
          (H1 := echo_services (Some "{}")) csv_file initial_app).2)
    = [false; false; true]
  ∧ error (analysis
       (handleFileSelect_final (H0 := warning_decoders blank_column_rows)
          (H1 := echo_services None) csv_file initial_app))
    = Some "Failed to analyze data. Please try again.".
Proof. repeat split; reflexivity. Qed.

End MoreScenarios.
